(** * Florence-2 captioning service and caption review tool

    A shallow embedding of [src/docker/app/florence_api.py] and
    [src/review_ui.py], followed by the properties their specification
    states about them.

    Python values are modelled as the code uses them: a [dict] with string
    keys whose order is irrelevant is a [gmap string _]; a JSON object, whose
    key order is written back to disk, is an association list; Python [int]
    is [Z]; an exception is a value of [pyexn].  Library code the programs
    call but do not contain (PIL, torch, transformers, os.path, time) is an
    interface, [Framework] with [Engine] for the service and [Host] for the
    review tool: the programs are functions of it.  What FastAPI and asyncio
    do around the handler is modelled where a property depends on it: the
    binding of the [task] form field, and the event loop that runs the
    handler as a coroutine.  Loading the weights,
    opening a file and moving arrays between devices are taken to succeed;
    running out of memory or disk is not modelled.  Writing a text that the
    file's encoding cannot hold does fail, and is modelled. *)

From Stdlib Require Import ZArith QArith_base Strings.Byte.
From stdpp Require Import base option list strings gmap fin_maps pretty.

Local Open Scope Z_scope.

(** ** Exceptions and results *)

(** A raised library exception: its class name and [str(ex)]. *)
Record pyexn := PyExn { exn_class : string; exn_msg : string }.

Inductive res (E A : Type) : Type :=
  | Ok (a : A)
  | Raise (e : E).
Arguments Ok {E A} a.
Arguments Raise {E A} e.

(** What an awaited call can raise: an instance of [Exception], which an
    [except Exception] clause catches, or of a class that derives from
    [BaseException] only ([asyncio.CancelledError] when the request is
    cancelled during the wait), which the clause lets through. *)
Inductive raised :=
  | AnException (e : pyexn)
  | NotException (e : pyexn).

(** What leaves [caption] other than a return value: an exception nobody
    caught, or the [HTTPException] the handler raises itself. *)
Inductive failure :=
  | Uncaught (e : pyexn)
  | HTTPException (status_code : Z) (detail : string).

(** ** Python values *)

Local Set Warnings "-register-all".

(** A JSON value, as [json.load] returns it and a handler returns it to the
    client.  A float is held by its exact value; an object keeps the order
    of its keys, which [json.dump] writes back. *)
Inductive json :=
  | JNull
  | JBool (b : bool)
  | JInt (z : Z)
  | JFloat (x : Q)
  | JStr (s : string)
  | JArr (items : list json)
  | JObj (fields : list (string * json)).

(** A caption record: a Python dict, keys unique, in insertion order. *)
Abbreviation record := (list (string * json)).

(** [d.get(key)], [d.get(key, dflt)], [d[key] = v], [d.setdefault(key, v)]. *)
Fixpoint dict_get (d : record) (key : string) : option json :=
  match d with
  | [] => None
  | (k, v) :: rest => if String.eqb k key then Some v else dict_get rest key
  end.

Definition dict_get_default (d : record) (key : string) (dflt : json) : json :=
  default dflt (dict_get d key).

Fixpoint dict_set (d : record) (key : string) (v : json) : record :=
  match d with
  | [] => [(key, v)]
  | (k, w) :: rest =>
      if String.eqb k key then (k, v) :: rest else (k, w) :: dict_set rest key v
  end.

Definition dict_setdefault (d : record) (key : string) (v : json) : record :=
  match dict_get d key with
  | Some _ => d
  | None => d ++ [(key, v)]
  end.

(** Python truth value, as [not path_value] needs it. *)
Definition truthy (v : json) : bool :=
  match v with
  | JNull => false
  | JBool b => b
  | JInt z => negb (z =? 0)
  | JFloat x => negb (Qnum x =? 0)
  | JStr s => negb (String.eqb s "")
  | JArr items => negb (bool_decide (items = []))
  | JObj fields => negb (bool_decide (fields = []))
  end.

(** [len(l)] and [l[i]] on a list: a negative index counts from the end, and
    anything outside raises [IndexError].  The element comes with its position,
    which stands for the reference to the object stored there. *)
Definition len {A} (l : list A) : Z := Z.of_nat (length l).

Definition list_getitem {A} (l : list A) (i : Z) : res pyexn (nat * A) :=
  let j := if i <? 0 then i + len l else i in
  if (0 <=? j) && (j <? len l) then
    match l !! Z.to_nat j with
    | Some x => Ok (Z.to_nat j, x)
    | None => Raise (PyExn "IndexError" "list index out of range")
    end
  else Raise (PyExn "IndexError" "list index out of range").

(** ** Tensors *)

Inductive dtype :=
  | float16 | bfloat16 | float32 | float64
  | uint8 | int8 | int16 | int32 | int64
  | bool_ | complex64 | complex128.

Global Instance dtype_eq_dec : EqDecision dtype.
Proof. solve_decision. Defined.

(** [torch.is_floating_point]: true for the four real floating kinds only. *)
Definition is_floating_point_dtype (d : dtype) : bool :=
  match d with
  | float16 | bfloat16 | float32 | float64 => true
  | _ => false
  end.

(** ** The libraries around the service

    [upload] is FastAPI's [UploadFile], [image] a PIL image, [storage] the
    elements of a tensor, [parsed] whatever the task parser returns.  Every
    call is a function of its arguments that returns or raises. *)
Class Framework := {
  upload : Type;
  image : Type;
  storage : Type;
  parsed : Type;
  (* os.getenv(name) and torch.cuda.is_available() at import time *)
  getenv : string → option string;
  cuda_is_available : bool;
  (* await file.read(): the one place where the handler waits *)
  file_read : upload → res raised (list byte);
  (* Image.open(io.BytesIO(payload)), img.convert(mode), img.size; a decoder
     raises instances of Exception *)
  Image_open : list byte → res pyexn image;
  Image_convert : image → string → res pyexn image;
  Image_size : image → Z * Z;
  (* element conversion done by tensor.to(dtype=...) *)
  cast_storage : dtype → dtype → storage → storage;
}.

Section Tensor.
Context `{Framework}.

Record tensor := Tensor {
  t_device : string;
  t_dtype : dtype;
  t_shape : list Z;
  t_data : storage;
}.

Definition is_floating_point (t : tensor) : bool :=
  is_floating_point_dtype (t_dtype t).

(** [value.to(device=d)] and [value.to(device=d, dtype=dt)]: the result
    lives on [d]; with a [dtype] its elements are converted, without one
    they are kept. *)
Definition tensor_to (t : tensor) (d : string) (dt : option dtype) : tensor :=
  match dt with
  | None => Tensor d (t_dtype t) (t_shape t) (t_data t)
  | Some k => Tensor d k (t_shape t) (cast_storage (t_dtype t) k (t_data t))
  end.

(** A keyword argument of [model.generate]. *)
Inductive kwarg :=
  | KTensor (t : tensor)
  | KInt (z : Z)
  | KBool (b : bool).

(** The loaded model: what [from_pretrained(id, torch_dtype=dt)] yields
    (weights of precision [dt], on the CPU) and where [.to] moves it. *)
Record model_handle := ModelHandle {
  model_name : string;
  model_dtype : dtype;
  model_device : string;
}.

Definition from_pretrained (id : string) (torch_dtype : dtype) : model_handle :=
  ModelHandle id torch_dtype "cpu".

Definition model_to (m : model_handle) (d : string) : model_handle :=
  ModelHandle (model_name m) (model_dtype m) d.
End Tensor.

(** The processor and the model, the two objects loaded at import time. *)
Class Engine `{Framework} := {
  (* processor(text=..., images=..., return_tensors=...) *)
  processor_call : string → image → string → res pyexn (gmap string tensor);
  (* model.generate with its keyword arguments, on the resident model *)
  generate : model_handle → list (string * kwarg) → res pyexn tensor;
  (* processor.batch_decode(ids, skip_special_tokens=...) *)
  batch_decode : tensor → bool → res pyexn (list string);
  (* processor.post_process_generation(text, task=..., image_size=...) *)
  post_process_generation : string → string → Z * Z → res pyexn parsed;
}.

(** ** florence_api.py *)

(** The calls a request makes into the libraries, in the order made.  [CallTo]
    is the [.to] of the alignment loop, with the key the loop is at. *)
Section Calls.
Context `{Engine}.

Inductive call :=
  | CallRead (file : upload)
  | CallImageOpen (payload : list byte)
  | CallConvert (img : image) (mode : string)
  | CallProcessor (text : string) (images : image) (return_tensors : string)
  | CallTo (key : string) (value : tensor) (device : string) (dt : option dtype)
  | CallGenerate (kwargs : list (string * kwarg))
  | CallBatchDecode (ids : tensor) (skip_special_tokens : bool)
  | CallPostProcess (text : string) (task : string) (image_size : Z * Z).

(** A computation that appends to the call log and returns or raises. *)
Definition M (E A : Type) : Type := list call → list call * res E A.

Definition ret {E A} (a : A) : M E A := λ log, (log, Ok a).
Definition raise {E A} (e : E) : M E A := λ log, (log, Raise e).
Definition bind {E A B} (m : M E A) (k : A → M E B) : M E B :=
  λ log, match m log with
         | (log', Ok a) => k a log'
         | (log', Raise e) => (log', Raise e)
         end.

(** A library call: logged, then its outcome. *)
Definition invoke {E A} (c : call) (r : res E A) : M E A :=
  λ log, (log ++ [c], r).

(** A call that raises instances of [Exception] only, inside a [try]. *)
Definition as_exception {A} (m : M pyexn A) : M raised A :=
  λ log, match m log with
         | (log', Ok a) => (log', Ok a)
         | (log', Raise e) => (log', Raise (AnException e))
         end.

(** [try: body except Exception as ex: handler]: the handler runs on an
    instance of [Exception]; anything else leaves the function as it is. *)
Definition try_except {A} (body : M raised A) (handler : pyexn → M failure A)
    : M failure A :=
  λ log, match body log with
         | (log', Ok a) => (log', Ok a)
         | (log', Raise (AnException e)) => handler e log'
         | (log', Raise (NotException e)) => (log', Raise (Uncaught e))
         end.

(** Outside a [try], a library exception leaves the function. *)
Definition uncaught {A} (m : M pyexn A) : M failure A :=
  λ log, match m log with
         | (log', Ok a) => (log', Ok a)
         | (log', Raise e) => (log', Raise (Uncaught e))
         end.
End Calls.

Global Instance M_ret `{Engine} {E} : MRet (M E) := λ A, ret.
Global Instance M_bind `{Engine} {E} : MBind (M E) := λ A B k m, bind m k.

Section FlorenceApi.
Context `{Engine}.

Definition MODEL_ID : string :=
  default "microsoft/Florence-2-base" (getenv "FLORENCE_MODEL_ID").
Definition DEFAULT_TASK : string := "<CAPTION>".
Definition DEVICE : string := if cuda_is_available then "cuda" else "cpu".
Definition DTYPE : dtype := if String.eqb DEVICE "cuda" then float16 else float32.

Definition model : model_handle := model_to (from_pretrained MODEL_ID DTYPE) DEVICE.

(** GET /health: a dict of three strings. *)
Definition health : record :=
  [("status", JStr "ok"); ("model_id", JStr MODEL_ID); ("device", JStr DEVICE)].

Record response := Response {
  resp_model_id : string;
  resp_task : string;
  resp_result : parsed;
}.

(** Lines 31-33, the body of the [try]. *)
Definition read_image (file : upload) : M raised image :=
  payload ← invoke (CallRead file) (file_read file);
  opened ← as_exception (invoke (CallImageOpen payload) (Image_open payload));
  as_exception (invoke (CallConvert opened "RGB") (Image_convert opened "RGB")).

(** [value.to(...)] at [key]: logged, and it returns the moved array. *)
Definition call_to {E} (key : string) (value : tensor) (device : string)
    (dt : option dtype) : M E tensor :=
  λ log, (log ++ [CallTo key value device dt], Ok (tensor_to value device dt)).

(** Lines 39-45: [for key, value in inputs.items()], filling [cast_inputs]. *)
Fixpoint cast_loop {E} (items : list (string * tensor))
    (cast_inputs : gmap string tensor) : M E (gmap string tensor) :=
  match items with
  | [] => ret cast_inputs
  | (key, value) :: rest =>
      moved ← (if is_floating_point value
               then call_to key value DEVICE (Some DTYPE)
               else call_to key value DEVICE None);
      cast_loop rest (<[key := moved]> cast_inputs)
  end.

(** [d[key]] on a dict: [KeyError] when absent. *)
Definition getitem {V} (d : gmap string V) (key : string) : M failure V :=
  match d !! key with
  | Some v => ret v
  | None => raise (Uncaught (PyExn "KeyError" key))
  end.

(** [l[0]] on a list: [IndexError] when empty. *)
Definition first_item {A} (l : list A) : M failure A :=
  match l with
  | x :: _ => ret x
  | [] => raise (Uncaught (PyExn "IndexError" "list index out of range"))
  end.

(** The handler of POST /caption.  [task_field] is the argument it is called
    with for [task], [None] when it is called with none and the parameter
    takes its default.  The second [return] of the source, lines 63-67, is
    never reached. *)
Definition caption (file : upload) (task_field : option string)
    : M failure response :=
  let task := default DEFAULT_TASK task_field in
  image ← try_except (read_image file)
             (λ ex, raise (HTTPException 400 ("Invalid image: " +:+ exn_msg ex)));
  inputs ← uncaught (invoke (CallProcessor task image "pt")
                        (processor_call task image "pt"));
  inputs ← cast_loop (map_to_list inputs) ∅;
  input_ids ← getitem inputs "input_ids";
  pixel_values ← getitem inputs "pixel_values";
  let kwargs := [("input_ids", KTensor input_ids);
                 ("pixel_values", KTensor pixel_values);
                 ("max_new_tokens", KInt 256);
                 ("do_sample", KBool false);
                 ("num_beams", KInt 3)] in
  generated_ids ← uncaught (invoke (CallGenerate kwargs) (generate model kwargs));
  texts ← uncaught (invoke (CallBatchDecode generated_ids false)
                       (batch_decode generated_ids false));
  generated_text ← first_item texts;
  parsed ← uncaught (invoke (CallPostProcess generated_text task (Image_size image))
                        (post_process_generation generated_text task (Image_size image)));
  ret (Response MODEL_ID task parsed).

(** [Form(DEFAULT_TASK)]: the value the framework binds to [task] for what
    the client sent under that name, [None] when it sent no such field.  A
    field sent empty is taken for a missing one: both get the default. *)
Definition Form (dflt : string) (sent : option string) : string :=
  match sent with
  | None | Some "" => dflt
  | Some text => text
  end.

(** POST /caption from the client's side: the form is bound, then the
    handler runs. *)
Definition post_caption (file : upload) (sent : option string) : M failure response :=
  caption file (Some (Form DEFAULT_TASK sent)).

(** ** Requests served together

    [caption] is a coroutine ([async def]) on the one event loop of the
    server.  The loop can turn to another request where the coroutine waits
    and nowhere else, and [caption] waits in one place, [await file.read()].
    All the rest, [model.generate] included, is called without [await] and
    runs to its end before the loop does anything else. *)

(** What is seen of a request from outside: a library call begins, a
    library call ends, the request is answered. *)
Inductive event :=
  | Enter (c : call)
  | Leave (c : call)
  | Answer (r : res failure response).

(** Calls made one after the other without waiting. *)
Definition spans (log : list call) : list event :=
  flat_map (λ c, [Enter c; Leave c]) log.

(** [caption] as the loop runs it, in stretches, each without interruption:
    the first goes up to the [await], with the read under way; the second
    begins when the read is over and goes to the end of the request. *)
Definition caption_stretches (file : upload) (task_field : option string)
    : list (list event) :=
  [[Enter (CallRead file)];
   Leave (CallRead file)
   :: spans (tail (caption file task_field []).1)
   ++ [Answer (caption file task_field []).2]].

(** The event loop.  [ready] holds, request by request, the stretches still
    to run; [schedule] names, step by step, the request the loop resumes.  A
    step runs the whole next stretch of that request; a request that has
    finished, or a number that names none, is passed over. *)
Fixpoint event_loop (schedule : list nat) (ready : list (list (list event)))
    : list (nat * event) :=
  match schedule with
  | [] => []
  | i :: later =>
      match ready !! i with
      | Some (stretch :: rest) =>
          (pair i <$> stretch) ++ event_loop later (<[i := rest]> ready)
      | _ => event_loop later ready
      end
  end.

Definition serve (requests : list (upload * option string)) (schedule : list nat)
    : list (nat * event) :=
  event_loop schedule ((λ request, caption_stretches request.1 request.2) <$> requests).

(** No [model.generate] begins while one is under way, and one that is
    under way is ended by the request that began it: [busy] is the request
    whose call has begun and not ended. *)
Fixpoint serialized (busy : option nat) (trace : list (nat * event)) : bool :=
  match trace with
  | [] => true
  | (i, Enter (CallGenerate _)) :: rest =>
      match busy with
      | None => serialized (Some i) rest
      | Some _ => false
      end
  | (i, Leave (CallGenerate _)) :: rest =>
      match busy with
      | Some j => Nat.eqb i j && serialized None rest
      | None => false
      end
  | _ :: rest => serialized busy rest
  end.

(** The events of request [i] in a trace. *)
Definition events_of (i : nat) (trace : list (nat * event)) : list event :=
  omap (λ ie, if decide (ie.1 = i) then Some ie.2 else None) trace.
End FlorenceApi.

(** ** review_ui.py *)

(** A file on disk, by what was written to it: the document [json.dump] got,
    the rows the csv writer got, header first, or the beginning of a JSON
    document that breaks off where a write failed. *)
Inductive file :=
  | JsonText (doc : json)
  | CsvText (rows : list (list json))
  | BrokenJson.

(** A [str] is held as its bytes in generalised UTF-8, where a lone
    surrogate (as [os.fsdecode] makes of a byte that is no UTF-8, and as
    [json.load] makes of an escape) takes three bytes, the first ED and the
    second A0 or above, which UTF-8 proper forbids.  A file opened with
    [encoding="utf-8"] takes a [str] exactly when it holds none. *)
Definition surrogate_lead (a b : Ascii.ascii) : bool :=
  Ascii.eqb a (Ascii.ascii_of_nat 237) && (160 <=? Ascii.nat_of_ascii b)%nat.

Fixpoint utf8_encodable (s : string) : bool :=
  match s with
  | String a (String b _ as rest) => negb (surrogate_lead a b) && utf8_encodable rest
  | _ => true
  end.

(** What [json.dump(..., ensure_ascii=False)] can write to such a file: every
    string and every key goes out as it is. *)
Fixpoint json_encodable (v : json) : bool :=
  match v with
  | JStr s => utf8_encodable s
  | JArr items => forallb json_encodable items
  | JObj fields =>
      forallb (λ field, let '(key, value) := field in
                        utf8_encodable key && json_encodable value) fields
  | _ => true
  end.

Definition data_encodable (data : list record) : bool :=
  json_encodable (JArr (map JObj data)).

(** What the csv writer can write: a string cell goes out as it is, any other
    by its [str], which has escapes in the place of surrogates. *)
Definition csv_cell_encodable (cell : json) : bool :=
  match cell with
  | JStr s => utf8_encodable s
  | _ => true
  end.

(** The library functions the tool calls. *)
Class Host := {
  str_strip : string → string;
  str_replace : string → string → string → string;
  os_path_isabs : string → bool;
  os_path_exists : string → bool;
  os_path_basename : string → string;
  os_path_dirname : string → string;
  os_path_join : string → string → string;
  time_strftime : string → string;
}.

(** The module globals and the disk. *)
Record world := World {
  DATA : list record;
  JSON_PATH : string;
  CSV_PATH : string;
  DATA_DIR : string;
  files : gmap string file;
}.

(** The ten values every handler returns to the page; the last five are the
    [interactive] flags of the buttons. *)
Record view := View {
  v_image : json;
  v_caption : json;
  v_progress : string;
  v_status : string;
  v_idx : Z;
  v_first : bool;
  v_prev : bool;
  v_next : bool;
  v_last : bool;
  v_end : bool;
}.

(** [item.setdefault("raw_caption", ""); item.setdefault("final_caption",
    item.get("raw_caption", ""))] on one dict. *)
Definition ensure_keys (item : record) : record :=
  let item := dict_setdefault item "raw_caption" (JStr "") in
  dict_setdefault item "final_caption" (dict_get_default item "raw_caption" (JStr "")).

(** The loop of [load_captions] over a list: only a dict has [setdefault]. *)
Fixpoint ensure_all (items : list json) : res pyexn (list record) :=
  match items with
  | [] => Ok []
  | JObj item :: rest =>
      match ensure_all rest with
      | Ok done => Ok (ensure_keys item :: done)
      | Raise e => Raise e
      end
  | _ :: _ => Raise (PyExn "AttributeError" "object has no attribute 'setdefault'")
  end.

(** [load_captions].  A document that is not an array is iterated all the
    same: an empty object or string loops zero times and comes back as a
    falsy value, which every handler treats like the empty list; a non-empty
    one yields strings; the rest are not iterable. *)
Definition load_captions (disk : gmap string file) (json_path : string)
    : res pyexn (list record) :=
  match disk !! json_path with
  | None => Raise (PyExn "FileNotFoundError" json_path)
  | Some (CsvText _) | Some BrokenJson =>
      Raise (PyExn "JSONDecodeError" "Expecting value")
  | Some (JsonText data) =>
      match data with
      | JArr items => ensure_all items
      | JObj [] | JStr "" => Ok []
      | JObj _ | JStr _ =>
          Raise (PyExn "AttributeError" "'str' object has no attribute 'setdefault'")
      | _ => Raise (PyExn "TypeError" "object is not iterable")
      end
  end.

(** The row [save_files] hands to [writer.writerow], and what a [DictWriter]
    with these [fieldnames] writes for it. *)
Definition fieldnames : list string := ["image"; "raw_caption"; "final_caption"].

Definition csv_rowdict (row : record) : record :=
  [("image", dict_get_default row "image" (JStr ""));
   ("raw_caption", dict_get_default row "raw_caption" (JStr ""));
   ("final_caption", dict_get_default row "final_caption" (JStr ""))].

Definition DictWriter_row (names : list string) (rowdict : record) : list json :=
  map (λ name, dict_get_default rowdict name (JStr "")) names.

(** The lines [writer.writerow] gets onto the file before one of them holds
    a text the file cannot take, and whether it got through them all. *)
Fixpoint csv_written (rows : list (list json)) : list (list json) * bool :=
  match rows with
  | [] => ([], true)
  | row :: rest =>
      if forallb csv_cell_encodable row then
        let '(written, through) := csv_written rest in (row :: written, through)
      else ([], false)
  end.

(** [save_files]: each [open(..., "w")] empties its file, then the text goes
    out piece by piece.  A piece the encoding cannot take raises
    [UnicodeEncodeError] there: the file keeps what went before, and the
    rest of [save_files] does not run. *)
Definition save_files (data : list record) (json_path csv_path : string)
    (disk : gmap string file) : gmap string file * res pyexn () :=
  let doc := JArr (map JObj data) in
  if json_encodable doc then
    let disk := <[json_path := JsonText doc]> disk in
    let '(written, through) :=
      csv_written (map (λ row, DictWriter_row fieldnames (csv_rowdict row)) data) in
    (<[csv_path := CsvText (map JStr fieldnames :: written)]> disk,
     if through then Ok ()
     else Raise (PyExn "UnicodeEncodeError" "surrogates not allowed"))
  else
    (<[json_path := BrokenJson]> disk,
     Raise (PyExn "UnicodeEncodeError" "surrogates not allowed")).

Definition clamp_index (idx length : Z) : Z :=
  if length =? 0 then 0 else Z.max 0 (Z.min idx (length - 1)).

(** A handler: reads and writes the globals and the disk, returns or raises. *)
Definition W (A : Type) : Type := world → world * res pyexn A.

Global Instance W_ret : MRet W := λ A a w, (w, Ok a).
Global Instance W_bind : MBind W := λ A B k m w,
  match m w with
  | (w', Ok a) => k a w'
  | (w', Raise e) => (w', Raise e)
  end.

Definition throw {A} (e : pyexn) : W A := λ w, (w, Raise e).
Definition read {A} (f : world → A) : W A := λ w, (w, Ok (f w)).

(** A handler step that leaves the globals and the disk alone. *)
Definition readonly {A} (m : W A) : Prop := ∀ w, (m w).1 = w.

Section ReviewUi.
Context `{Host}.

(** [get_record]: [None, 0] on an empty [DATA], else the record at the
    clamped index (a reference into [DATA]) and that index. *)
Definition get_record (idx : Z) : W (option (nat * record) * Z) :=
  data ← read DATA;
  if bool_decide (data = []) then mret (None, 0)
  else
    let idx := clamp_index idx (len data) in
    match list_getitem data idx with
    | Ok rec => mret (Some rec, idx)
    | Raise e => throw e
    end.

Definition progress_text (idx : Z) : W string :=
  n ← read (λ w, len (DATA w));
  if n =? 0 then mret "No records"
  else mret ("**" +:+ pretty (idx + 1) +:+ " / " +:+ pretty n +:+ "**").

Definition display_path (path_value : json) : W json :=
  if negb (truthy path_value) then mret path_value
  else
    match path_value with
    | JStr p =>
        if os_path_isabs p && os_path_exists p then mret path_value
        else
          let filename := os_path_basename (str_replace p "\" "/") in
          data_dir ← read DATA_DIR;
          mret (JStr (os_path_join data_dir filename))
    | _ => throw (PyExn "TypeError" "expected str, bytes or os.PathLike object")
    end.

(** [rec.get(key, dflt)] where [rec] may be [None]. *)
Definition rec_get (rec : option (nat * record)) (key : string) (dflt : json)
    : W json :=
  match rec with
  | Some (_, r) => mret (dict_get_default r key dflt)
  | None => throw (PyExn "AttributeError" "'NoneType' object has no attribute 'get'")
  end.

(** [rec[key] = v]: the dict [rec] refers to is the one inside [DATA]. *)
Definition rec_setitem (rec : option (nat * record)) (key : string) (v : json)
    : W () :=
  match rec with
  | Some (pos, r) =>
      λ w, (World (<[pos := dict_set r key v]> (DATA w))
              (JSON_PATH w) (CSV_PATH w) (DATA_DIR w) (files w), Ok ())
  | None =>
      throw (PyExn "TypeError" "'NoneType' object does not support item assignment")
  end.

(** [save_files(DATA, JSON_PATH, CSV_PATH)]. *)
Definition save_globals : W () :=
  λ w, let saved := save_files (DATA w) (JSON_PATH w) (CSV_PATH w) (files w) in
       (World (DATA w) (JSON_PATH w) (CSV_PATH w) (DATA_DIR w) saved.1, saved.2).

(** Lines 139-155, where every branch but ["end"] arrives. *)
Definition nav_show (idx : Z) : W view :=
  '(rec, idx) ← get_record idx;
  image ← rec_get rec "image" (JStr "");
  img_path ← display_path image;
  cap ← rec_get rec "final_caption" (JStr "");
  let status := "Saved " +:+ time_strftime "%H:%M:%S" in
  progress ← progress_text idx;
  mret (View img_path cap progress status idx true true true true true).

(** Lines 123-137, the ["end"] branch, which returns on its own. *)
Definition nav_end_branch (idx : Z) : W view :=
  let status := "Session ended. Close this tab if you're done." in
  '(rec, idx) ← get_record idx;
  image ← rec_get rec "image" JNull;
  img_path ← display_path image;
  cap ← rec_get rec "final_caption" (JStr "");
  progress ← progress_text idx;
  mret (View img_path cap progress status idx false false false false false).

Definition nav (direction caption_text : string) (idx : Z) : W view :=
  data ← read DATA;
  if bool_decide (data = []) then
    mret (View JNull (JStr "") "No records" "Nothing to save" idx
            false false false false false)
  else
    '(rec, idx) ← get_record idx;
    rec_setitem rec "final_caption" (JStr (str_strip caption_text));;
    save_globals;;
    n ← read (λ w, len (DATA w));
    if String.eqb direction "next" then nav_show (clamp_index (idx + 1) n)
    else if String.eqb direction "prev" then nav_show (clamp_index (idx - 1) n)
    else if String.eqb direction "first" then nav_show 0
    else if String.eqb direction "last" then nav_show (n - 1)
    else if String.eqb direction "end" then nav_end_branch idx
    else nav_show idx.

Definition nav_first (caption_text : string) (idx : Z) := nav "first" caption_text idx.
Definition nav_prev (caption_text : string) (idx : Z) := nav "prev" caption_text idx.
Definition nav_next (caption_text : string) (idx : Z) := nav "next" caption_text idx.
Definition nav_last (caption_text : string) (idx : Z) := nav "last" caption_text idx.
Definition nav_end (caption_text : string) (idx : Z) := nav "end" caption_text idx.

Definition load_first (idx : Z) : W view :=
  data ← read DATA;
  if bool_decide (data = []) then
    mret (View JNull (JStr "") "No records" "Nothing to review" idx
            false false false false false)
  else
    '(rec, idx) ← get_record idx;
    image ← rec_get rec "image" (JStr "");
    img_path ← display_path image;
    cap ← rec_get rec "final_caption" (JStr "");
    progress ← progress_text idx;
    mret (View img_path cap progress "" idx true true true true true).

(** The part of [main] before the page is built: the globals are set from
    the two paths of the command line. *)
Definition main (captions csv : string) (disk : gmap string file)
    : res pyexn world :=
  match load_captions disk captions with
  | Ok data => Ok (World data captions csv (os_path_dirname captions) disk)
  | Raise e => Raise e
  end.
End ReviewUi.

(** ** Reading a call log *)

Section Reading.
Context `{Engine}.

(** What the alignment loop stores for one array, and the call it logs. *)
Definition align (value : tensor) : tensor :=
  tensor_to value DEVICE (if is_floating_point value then Some DTYPE else None).

Definition visit (item : string * tensor) : call :=
  CallTo item.1 item.2 DEVICE (if is_floating_point item.2 then Some DTYPE else None).

(** The keys the loop was at, in order, one per [.to] in the log. *)
Definition visited_keys (log : list call) : list string :=
  omap (λ c, match c with CallTo key _ _ _ => Some key | _ => None end) log.

(** The keyword arguments of every [model.generate] in the log. *)
Definition generate_calls (log : list call) : list (list (string * kwarg)) :=
  omap (λ c, match c with CallGenerate kwargs => Some kwargs | _ => None end) log.

(** Calls that belong to tensorization, generation or post-processing. *)
Definition past_decoding (c : call) : bool :=
  match c with
  | CallRead _ | CallImageOpen _ | CallConvert _ _ => false
  | _ => true
  end.
End Reading.

(** ** Reading a step of the review tool *)

(** The globals and the disk once lines 110-112 of [nav] have run on the
    record [rec] found at position [pos], whether the save got through or
    not. *)
Definition after_save `{Host} (w : world) (pos : nat) (rec : record)
    (caption_text : string) : world :=
  let data := <[pos := dict_set rec "final_caption" (JStr (str_strip caption_text))]>
                (DATA w) in
  World data (JSON_PATH w) (CSV_PATH w) (DATA_DIR w)
    (save_files data (JSON_PATH w) (CSV_PATH w) (files w)).1.

(** The three cells of a record's CSV line. *)
Definition csv_cells (row : record) : list json :=
  [dict_get_default row "image" (JStr "");
   dict_get_default row "raw_caption" (JStr "");
   dict_get_default row "final_caption" (JStr "")].

(** The image field is absent or a string, as the tool expects. *)
Definition image_is_path (rec : record) : bool :=
  match dict_get rec "image" with
  | None | Some (JStr _) => true
  | Some _ => false
  end.

(** ** A small installation to run the programs on

    Uploads and images are byte strings; a payload that starts with a zero
    byte is not an image, an upload that starts with byte 2 is one whose
    request is cancelled while it is read, one that starts with byte 3 fails
    to be read.  The processor returns three arrays, one of them
    floating-point. *)
Definition sample_framework : Framework := {|
  upload := list byte;
  image := list byte;
  storage := list Z;
  parsed := string;
  getenv := λ _, None;
  cuda_is_available := true;
  file_read := λ file,
    match file with
    | x02 :: _ => Raise (NotException (PyExn "CancelledError" ""))
    | x03 :: _ => Raise (AnException (PyExn "OSError" "read failed"))
    | _ => Ok file
    end;
  Image_open := λ payload,
    match payload with
    | x00 :: _ => Raise (PyExn "UnidentifiedImageError" "cannot identify image file")
    | _ => Ok payload
    end;
  Image_convert := λ img _, Ok img;
  Image_size := λ img, (len img, 1);
  cast_storage := λ _ _ data, data;
|}.

Definition sample_tensor (d : dtype) (shape data : list Z) : @tensor sample_framework :=
  @Tensor sample_framework "cpu" d shape data.

Definition sample_bundle : gmap string (@tensor sample_framework) :=
  <["input_ids" := sample_tensor int64 [1; 3] [0; 5; 2]]>
    (<["pixel_values" := sample_tensor float32 [1; 1] [7]]>
       (<["attention_mask" := sample_tensor int64 [1; 3] [1; 1; 1]]> ∅)).

Definition sample_engine : @Engine sample_framework := {|
  processor_call := λ _ _ _, Ok sample_bundle;
  generate := λ _ _, Ok (sample_tensor int64 [1; 2] [4; 2]);
  batch_decode := λ _ skip, Ok [if skip then "a cat" else "</s>a cat</s>"];
  post_process_generation := λ text task _, Ok (task +:+ text);
|}.

Definition sample_upload : list byte := [x01; x02].
Definition sample_bad_upload : list byte := [x00; x02].
Definition sample_cancelled_upload : list byte := [x02].
Definition sample_unread_upload : list byte := [x03].

(** What [generate] is given for [sample_upload] on this installation. *)
Definition sample_kwargs : list (string * @kwarg sample_framework) :=
  [("input_ids", KTensor (@Tensor sample_framework "cuda" int64 [1; 3] [0; 5; 2]));
   ("pixel_values", KTensor (@Tensor sample_framework "cuda" float16 [1; 1] [7]));
   ("max_new_tokens", KInt 256);
   ("do_sample", KBool false);
   ("num_beams", KInt 3)].

Definition sample_host : Host := {|
  str_strip := λ s, s;
  str_replace := λ s _ _, s;
  os_path_isabs := λ _, false;
  os_path_exists := λ _, false;
  os_path_basename := λ s, s;
  os_path_dirname := λ _, "/data";
  os_path_join := λ a b, a +:+ "/" +:+ b;
  time_strftime := λ _, "12:00:00";
|}.

Definition sample_records : list json :=
  [JObj [("image", JStr "a.png"); ("raw_caption", JStr "a cat")];
   JObj [("image", JStr "b.png")]].

Definition sample_disk : gmap string file :=
  {[ "/data/captions.json" := JsonText (JArr sample_records) ]}.

Definition sample_world : world :=
  World [[("image", JStr "a.png"); ("raw_caption", JStr "a cat");
          ("final_caption", JStr "a cat")];
         [("image", JStr "b.png"); ("raw_caption", JStr "");
          ("final_caption", JStr "")]]
    "/data/captions.json" "/data/captions.csv" "/data" sample_disk.

(** ** The page of the review tool

    Lines 225-264 of [main]: [state_holder] starts at 0; the page first runs
    [load_first] on it, and every button runs its handler on the text then in
    the caption box and on [state_holder], which takes the index the handler
    returns.  A run ends at the first handler that raises. *)
Inductive button := FirstBtn | PrevBtn | NextBtn | LastBtn | EndBtn.

Definition on_click `{Host} (b : button) : string → Z → W view :=
  match b with
  | FirstBtn => nav_first
  | PrevBtn => nav_prev
  | NextBtn => nav_next
  | LastBtn => nav_last
  | EndBtn => nav_end
  end.

Fixpoint clicks `{Host} (actions : list (button * string)) (state_holder : Z) : W Z :=
  match actions with
  | [] => mret state_holder
  | (b, caption_text) :: rest =>
      shown ← on_click b caption_text state_holder;
      clicks rest (v_idx shown)
  end.

Definition session `{Host} (actions : list (button * string)) : W Z :=
  shown ← load_first 0;
  clicks actions (v_idx shown).

(** ** Reading more of both programs *)

(** The keyword arguments [caption] builds from the two aligned arrays. *)
Definition generate_kwargs `{Framework} (input_ids pixel_values : tensor)
    : list (string * kwarg) :=
  [("input_ids", KTensor input_ids);
   ("pixel_values", KTensor pixel_values);
   ("max_new_tokens", KInt 256);
   ("do_sample", KBool false);
   ("num_beams", KInt 3)].

(** A record as [load_captions] leaves it: both caption keys present. *)
Definition has_caption_keys (rec : record) : bool :=
  bool_decide (is_Some (dict_get rec "raw_caption"))
  && bool_decide (is_Some (dict_get rec "final_caption")).

(** Where [nav] goes from the clamped index [c] among [n] records. *)
Definition nav_target (direction : string) (c n : Z) : Z :=
  if String.eqb direction "next" then Z.min (c + 1) (n - 1)
  else if String.eqb direction "prev" then Z.max (c - 1) 0
  else if String.eqb direction "first" then 0
  else if String.eqb direction "last" then n - 1
  else c.

(** [w'] differs from [w] at most in [final_caption] values and in the two
    files the tool writes. *)
Definition only_captions_changed (w w' : world) : Prop :=
  Forall2 (λ before after, ∀ key, key ≠ "final_caption" →
             dict_get after key = dict_get before key)
    (DATA w) (DATA w')
  ∧ JSON_PATH w' = JSON_PATH w
  ∧ CSV_PATH w' = CSV_PATH w
  ∧ DATA_DIR w' = DATA_DIR w
  ∧ ∀ path, path ≠ JSON_PATH w → path ≠ CSV_PATH w →
      files w' !! path = files w !! path.


(** A processor that forgets the token ids, and a tool given one path for
    both of its files. *)
Definition sample_engine_no_ids : @Engine sample_framework := {|
  processor_call := λ _ _ _, Ok (delete "input_ids" sample_bundle);
  generate := λ _ _, Ok (sample_tensor int64 [1; 2] [4; 2]);
  batch_decode := λ _ skip, Ok [if skip then "a cat" else "</s>a cat</s>"];
  post_process_generation := λ text task _, Ok (task +:+ text);
|}.

Definition sample_world_one_path : world :=
  World (DATA sample_world) "/data/captions.json" "/data/captions.json" "/data"
    sample_disk.

(** The surrogate U+DCFF, which stands for the byte FF of a file name, and a
    caption file that names such an image, as loaded. *)
Definition surrogate_DCFF : string :=
  String (Ascii.ascii_of_nat 237)
    (String (Ascii.ascii_of_nat 179) (String (Ascii.ascii_of_nat 191) "")).

Definition sample_disk_surrogate : gmap string file :=
  {[ "/data/captions.json" :=
       JsonText (JArr [JObj [("image", JStr ("img" +:+ surrogate_DCFF +:+ ".png"));
                             ("raw_caption", JStr "a cat")]]) ]}.

Definition sample_world_surrogate : world :=
  World [[("image", JStr ("img" +:+ surrogate_DCFF +:+ ".png"));
          ("raw_caption", JStr "a cat"); ("final_caption", JStr "a cat")]]
    "/data/captions.json" "/data/captions.csv" "/data" sample_disk_surrogate.

(** Two requests in flight at once. *)
Definition sample_requests : list (list byte * option string) :=
  [(sample_upload, None); (sample_upload, Some "<OD>")].

(** * Properties *)

(** ** The programs on the sample installation *)

Section Samples.
#[local] Existing Instances sample_framework sample_engine sample_host.

Example clamp_index_below : clamp_index (-3) 5 = 0.
Proof. reflexivity. Qed.

Example clamp_index_inside : clamp_index 2 5 = 2.
Proof. reflexivity. Qed.

Example clamp_index_above : clamp_index 9 5 = 4.
Proof. reflexivity. Qed.

Example clamp_index_empty : clamp_index 9 0 = 0.
Proof. reflexivity. Qed.

Example sample_health :
  health
  = [("status", JStr "ok"); ("model_id", JStr "microsoft/Florence-2-base");
     ("device", JStr "cuda")].
Proof. reflexivity. Qed.

Example sample_caption :
  caption sample_upload None []
  = ([CallRead sample_upload;
      CallImageOpen sample_upload;
      CallConvert sample_upload "RGB";
      CallProcessor "<CAPTION>" sample_upload "pt";
      CallTo "input_ids" (sample_tensor int64 [1; 3] [0; 5; 2]) "cuda" None;
      CallTo "attention_mask" (sample_tensor int64 [1; 3] [1; 1; 1]) "cuda" None;
      CallTo "pixel_values" (sample_tensor float32 [1; 1] [7]) "cuda" (Some float16);
      CallGenerate sample_kwargs;
      CallBatchDecode (sample_tensor int64 [1; 2] [4; 2]) false;
      CallPostProcess "</s>a cat</s>" "<CAPTION>" (2, 1)],
     Ok (Response "microsoft/Florence-2-base" "<CAPTION>"
           "<CAPTION></s>a cat</s>")).
Proof. vm_compute. reflexivity. Qed.

Example sample_caption_bad_upload :
  caption sample_bad_upload (Some "<OD>") []
  = ([CallRead sample_bad_upload; CallImageOpen sample_bad_upload],
     Raise (HTTPException 400 "Invalid image: cannot identify image file")).
Proof. reflexivity. Qed.

Example sample_caption_cancelled :
  caption sample_cancelled_upload None []
  = ([CallRead sample_cancelled_upload], Raise (Uncaught (PyExn "CancelledError" ""))).
Proof. reflexivity. Qed.

Example sample_caption_unread :
  caption sample_unread_upload None []
  = ([CallRead sample_unread_upload],
     Raise (HTTPException 400 "Invalid image: read failed")).
Proof. reflexivity. Qed.

Example sample_post_caption_empty_task :
  (post_caption sample_upload (Some "") []).2
  = Ok (Response "microsoft/Florence-2-base" "<CAPTION>" "<CAPTION></s>a cat</s>").
Proof. vm_compute. reflexivity. Qed.

Example sample_serve :
  serve [(sample_bad_upload, None); (sample_cancelled_upload, None)] [0; 1; 1; 0]%nat
  = [(0%nat, Enter (CallRead sample_bad_upload));
     (1%nat, Enter (CallRead sample_cancelled_upload));
     (1%nat, Leave (CallRead sample_cancelled_upload));
     (1%nat, Answer (Raise (Uncaught (PyExn "CancelledError" ""))));
     (0%nat, Leave (CallRead sample_bad_upload));
     (0%nat, Enter (CallImageOpen sample_bad_upload));
     (0%nat, Leave (CallImageOpen sample_bad_upload));
     (0%nat, Answer (Raise (HTTPException 400
                              "Invalid image: cannot identify image file")))].
Proof. vm_compute. reflexivity. Qed.

(** The loop alone keeps no two calls apart: were [model.generate] waited
    for, so that its beginning and its end fell into two stretches, a second
    request could begin its own in between. *)
Example awaited_generate_would_overlap :
  serialized None
    (event_loop [0; 1; 0; 1]%nat
       [[[Enter (CallGenerate sample_kwargs)]; [Leave (CallGenerate sample_kwargs)]];
        [[Enter (CallGenerate sample_kwargs)]; [Leave (CallGenerate sample_kwargs)]]])
  = false.
Proof. reflexivity. Qed.

Example sample_surrogate_not_encodable :
  utf8_encodable ("img" +:+ surrogate_DCFF +:+ ".png") = false
  ∧ utf8_encodable "img.png" = true
  ∧ data_encodable (DATA sample_world) = true
  ∧ data_encodable (DATA sample_world_surrogate) = false.
Proof. vm_compute. done. Qed.

Example sample_main_surrogate :
  main "/data/captions.json" "/data/captions.csv" sample_disk_surrogate
  = Ok sample_world_surrogate.
Proof. reflexivity. Qed.

Example sample_main :
  main "/data/captions.json" "/data/captions.csv" sample_disk
  = Ok sample_world.
Proof. reflexivity. Qed.

Example sample_nav_next_at_last :
  (nav "next" " a dog" 1 sample_world).2
  = Ok (View (JStr "/data/b.png") (JStr " a dog") "**2 / 2**" "Saved 12:00:00" 1
          true true true true true).
Proof. vm_compute. reflexivity. Qed.

Example sample_nav_written :
  files (nav "prev" "a dog" 1 sample_world).1 !! "/data/captions.csv"
  = Some (CsvText [[JStr "image"; JStr "raw_caption"; JStr "final_caption"];
                   [JStr "a.png"; JStr "a cat"; JStr "a cat"];
                   [JStr "b.png"; JStr ""; JStr "a dog"]]).
Proof. vm_compute. reflexivity. Qed.
End Samples.

(** ** The alignment pass *)

Section Alignment.
Context `{Engine}.

Lemma cast_loop_run {E} (items : list (string * tensor))
    (acc : gmap string tensor) (log : list call) :
  cast_loop (E := E) items acc log
  = (log ++ (visit <$> items),
     Ok (foldl (λ m item, <[item.1 := align item.2]> m) acc items)).
Proof.
  revert acc log. induction items as [|[key value] rest IH]; intros acc log.
  - cbn. by rewrite app_nil_r.
  - cbn [cast_loop]. unfold mbind, M_bind, bind, call_to, visit at 1, align at 1.
    cbn [fst snd fmap list_fmap foldl].
    destruct (is_floating_point value); rewrite IH, <- app_assoc; reflexivity.
Qed.

Lemma foldl_insert_lookup (items : list (string * tensor))
    (acc : gmap string tensor) (key : string) :
  NoDup items.*1 →
  (∀ value, (key, value) ∈ items →
     foldl (λ m item, <[item.1 := align item.2]> m) acc items !! key
     = Some (align value))
  ∧ (key ∉ items.*1 →
     foldl (λ m item, <[item.1 := align item.2]> m) acc items !! key = acc !! key).
Proof.
  revert acc. induction items as [|[k0 v0] rest IH]; intros acc Hnd.
  - split; [intros value Hin; inversion Hin | done].
  - cbn in Hnd. apply NoDup_cons in Hnd as [Hk0 Hnd].
    destruct (IH (<[k0 := align v0]> acc) Hnd) as [IHin IHout].
    cbn [foldl fst snd]. split.
    + intros value Hin. apply elem_of_cons in Hin as [Heq | Hin].
      * injection Heq as -> ->. rewrite IHout by done. apply lookup_insert_eq.
      * by apply IHin.
    + intros Hout. cbn in Hout. apply not_elem_of_cons in Hout as [Hne Hout].
      rewrite IHout by done. by apply lookup_insert_ne.
Qed.

Lemma cast_loop_bundle {E} (inputs : gmap string tensor) (log : list call) :
  cast_loop (E := E) (map_to_list inputs) ∅ log
  = (log ++ (visit <$> map_to_list inputs), Ok (align <$> inputs)).
Proof.
  rewrite cast_loop_run. f_equal. f_equal. apply map_eq. intros key.
  pose proof (foldl_insert_lookup (map_to_list inputs) ∅ key
                (NoDup_fst_map_to_list inputs)) as [Hin Hout].
  rewrite lookup_fmap. destruct (inputs !! key) as [value|] eqn:Hk; cbn.
  - apply Hin. by apply elem_of_map_to_list.
  - rewrite Hout; [done|]. intros Hel. apply list_elem_of_fmap in Hel as [[k v] [-> Hel]].
    apply elem_of_map_to_list in Hel. cbn in Hk. congruence.
Qed.

Lemma visited_keys_visit (items : list (string * tensor)) :
  visited_keys (visit <$> items) = items.*1.
Proof. induction items as [|[k v] rest IH]; [done|]. cbn. by f_equal. Qed.

(** C1.  Whatever bundle the processor returned, the alignment loop ends
    normally having called [.to] once per item and nothing else; the keys it
    was at are the keys of the bundle, each once; the new bundle has exactly
    the keys of the old one; and under each key lies the old array moved to
    the model's device, in the model's precision when it was floating-point,
    and with its own element kind and elements when it was not. *)
Theorem alignment_pass_aligns_every_key
    (inputs : gmap string tensor) (log : list call) :
  ∃ visits cast_inputs,
    cast_loop (E := failure) (map_to_list inputs) ∅ log = (log ++ visits, Ok cast_inputs)
    ∧ length visits = size inputs
    ∧ length (visited_keys visits) = size inputs
    ∧ NoDup (visited_keys visits)
    ∧ (∀ key, key ∈ visited_keys visits ↔ key ∈ dom inputs)
    ∧ dom cast_inputs = dom inputs
    ∧ ∀ key value, inputs !! key = Some value →
        ∃ value', cast_inputs !! key = Some value'
          ∧ t_device value' = model_device model
          ∧ t_shape value' = t_shape value
          ∧ if is_floating_point value
            then t_dtype value' = model_dtype model
            else t_dtype value' = t_dtype value ∧ t_data value' = t_data value.
Proof.
  exists (visit <$> map_to_list inputs), (align <$> inputs).
  rewrite visited_keys_visit. repeat split.
  - apply cast_loop_bundle.
  - by rewrite length_fmap, length_map_to_list.
  - by rewrite length_fmap, length_map_to_list.
  - apply NoDup_fst_map_to_list.
  - intros Hel. apply list_elem_of_fmap in Hel as [[k v] [-> Hel]].
    apply elem_of_map_to_list in Hel. apply elem_of_dom. by exists v.
  - intros Hel. apply elem_of_dom in Hel as [v Hv].
    apply list_elem_of_fmap. exists (key, v). split; [done|].
    by apply elem_of_map_to_list.
  - apply dom_fmap_L.
  - intros key value Hk. exists (align value). rewrite lookup_fmap, Hk. cbn.
    unfold align. destruct (is_floating_point value); cbn; auto.
Qed.
End Alignment.

(** ** The caption request *)

Section Caption.
Context `{Engine}.

(** Runs [caption] symbolically: one goal per place where the request can
    end, each with its log and its outcome written out. *)
Ltac caption_cases :=
  unfold caption, read_image;
  unfold mbind, M_bind, bind, try_except, uncaught, as_exception, invoke, mret, raise, ret;
  destruct (file_read _) as [payload|[e|e]] eqn:Hread;
  [destruct (Image_open _) as [opened|e] eqn:Hopen; [|]|..];
  [destruct (Image_convert _ "RGB") as [img|e] eqn:Hconv; [|]|..];
  [destruct (processor_call _ _ "pt") as [inputs|e] eqn:Hproc; [|]|..];
  [rewrite cast_loop_bundle; unfold getitem;
   destruct ((align <$> _) !! "input_ids") as [input_ids|] eqn:Hids;
     [|unfold raise]|..];
  [destruct ((align <$> _) !! "pixel_values") as [pixel_values|] eqn:Hpx;
     [unfold ret|unfold raise]|..];
  [destruct (generate _ _) as [generated_ids|e] eqn:Hgen; [|]|..];
  [destruct (batch_decode _ _) as [[|generated_text texts]|e] eqn:Hdec;
     unfold first_item; [unfold raise|unfold ret|]|..];
  [|destruct (post_process_generation _ _ _) as [result|e] eqn:Hpost; [|]|..];
  rewrite <- ?app_assoc; cbn [app].

Lemma lookup_align (inputs : gmap string tensor) key value' :
  (align <$> inputs) !! key = Some value' →
  ∃ value, inputs !! key = Some value ∧ value' = align value.
Proof.
  rewrite lookup_fmap. destruct (inputs !! key) as [value|]; [|done].
  intros [= <-]. by exists value.
Qed.

Lemma generate_calls_app (l1 l2 : list call) :
  generate_calls (l1 ++ l2) = generate_calls l1 ++ generate_calls l2.
Proof. apply omap_app. Qed.

Lemma generate_calls_visits (items : list (string * tensor)) :
  generate_calls (visit <$> items) = [].
Proof. induction items as [|[k v] rest IH]; [done|]. cbn. exact IH. Qed.

(** C2.  When the upload was read but its bytes do not decode, whether
    [Image.open] or the conversion to RGB raises and whatever the exception,
    the request ends in [HTTPException] 400 whose detail is the fixed prefix
    followed by the message of that exception, and no call into the
    processor, the device transfer or the model has been made. *)
Theorem caption_rejects_undecodable_image
    (file : upload) (task_field : option string) (payload : list byte) (ex : pyexn) :
  file_read file = Ok payload →
  (Image_open payload = Raise ex
   ∨ ∃ opened, Image_open payload = Ok opened
       ∧ Image_convert opened "RGB" = Raise ex) →
  ∃ log,
    caption file task_field []
    = (log, Raise (HTTPException 400 ("Invalid image: " +:+ exn_msg ex)))
    ∧ ∀ c, c ∈ log → past_decoding c = false.
Proof.
  intros Hread Hfail.
  unfold caption, read_image.
  unfold mbind, M_bind, bind, try_except, as_exception, invoke, raise. rewrite Hread.
  destruct Hfail as [Hopen | (opened & Hopen & Hconv)]; rewrite Hopen; [|rewrite Hconv];
    (eexists; split; [reflexivity|]); intros c Hc; cbn in Hc;
    repeat (apply elem_of_cons in Hc as [-> | Hc]; [reflexivity|]);
    by apply elem_of_nil in Hc.
Qed.

(** Splits [c ∈ log] for a log written out by [caption_cases]. *)
Ltac log_member Hc :=
  repeat first
    [ apply elem_of_nil in Hc; destruct Hc
    | apply elem_of_cons in Hc as [Hc | Hc]; [try discriminate Hc|]
    | apply elem_of_app in Hc as [Hc | Hc];
      [apply list_elem_of_fmap in Hc as [[? ?] [Hc _]]; discriminate Hc|]
    | apply list_elem_of_fmap in Hc as [[? ?] [Hc _]]; discriminate Hc ].

(** C3.  If a request calls [model.generate] at all, it does so once, with
    five keyword arguments: [input_ids] and [pixel_values], which are the
    aligned arrays the processor returned under these two names for the
    decoded upload, then [max_new_tokens=256], [do_sample=False] and
    [num_beams=3]; and the one tensor that call returns is the only one ever
    decoded. *)
Theorem generation_call_contract
    (file : upload) (task_field : option string) (log : list call)
    (res : res failure response) (n : nat) (kwargs : list (string * kwarg)) :
  caption file task_field [] = (log, res) →
  log !! n = Some (CallGenerate kwargs) →
  ∃ payload opened image inputs input_ids pixel_values,
    file_read file = Ok payload
    ∧ Image_open payload = Ok opened
    ∧ Image_convert opened "RGB" = Ok image
    ∧ processor_call (default DEFAULT_TASK task_field) image "pt" = Ok inputs
    ∧ inputs !! "input_ids" = Some input_ids
    ∧ inputs !! "pixel_values" = Some pixel_values
    ∧ kwargs = [("input_ids", KTensor (align input_ids));
                ("pixel_values", KTensor (align pixel_values));
                ("max_new_tokens", KInt 256);
                ("do_sample", KBool false);
                ("num_beams", KInt 3)]
    ∧ generate_calls log = [kwargs]
    ∧ ∀ m ids skip, log !! m = Some (CallBatchDecode ids skip) →
        generate model kwargs = Ok ids.
Proof.
  intros Hrun Hn. apply list_elem_of_lookup_2 in Hn. revert Hrun Hn.
  caption_cases; intros [= <- <-] Hn; log_member Hn.
  all: injection Hn as ->.
  all: apply lookup_align in Hids as (ids & Hids & ->).
  all: apply lookup_align in Hpx as (px & Hpx & ->).
  all: exists payload, opened, img, inputs, ids, px; repeat split; try done.
  all: try (change (?a :: ?b :: ?c :: ?d :: ?v ++ ?rest)
              with ([a; b; c; d] ++ v ++ rest);
            rewrite !generate_calls_app, generate_calls_visits; reflexivity).
  all: intros m ids' skip Hm; apply list_elem_of_lookup_2 in Hm; log_member Hm.
  all: injection Hm as <- _; done.
Qed.

(** C6.  A request that succeeds answers with the identifier of the loaded
    model, the task the client sent when it sent one that is not empty, or
    ["<CAPTION>"] when it sent none or an empty one, and as result what the
    parser returned for the first text decoded from what the model generated
    for the aligned arrays of this upload, for that task and for the size of
    the image the upload decoded to. *)
Theorem caption_response_contents
    (file : upload) (sent : option string) (log : list call) (r : response) :
  post_caption file sent [] = (log, Ok r) →
  let task := match sent with
              | None | Some "" => "<CAPTION>"
              | Some text => text
              end in
  resp_model_id r = MODEL_ID
  ∧ resp_model_id r = model_name model
  ∧ resp_task r = task
  ∧ ∃ payload opened image inputs input_ids pixel_values generated_ids
      generated_text texts,
      file_read file = Ok payload
      ∧ Image_open payload = Ok opened
      ∧ Image_convert opened "RGB" = Ok image
      ∧ processor_call task image "pt" = Ok inputs
      ∧ inputs !! "input_ids" = Some input_ids
      ∧ inputs !! "pixel_values" = Some pixel_values
      ∧ generate model (generate_kwargs (align input_ids) (align pixel_values))
        = Ok generated_ids
      ∧ batch_decode generated_ids false = Ok (generated_text :: texts)
      ∧ post_process_generation generated_text task (Image_size image)
        = Ok (resp_result r).
Proof.
  intros Hrun task. revert Hrun. unfold post_caption.
  assert (Form DEFAULT_TASK sent = task) as -> by (subst task; by destruct sent as [[|]|]).
  clearbody task.
  caption_cases; intros [= <- <-]. cbn [resp_model_id resp_task resp_result].
  apply lookup_align in Hids as (ids & Hids & ->).
  apply lookup_align in Hpx as (px & Hpx & ->).
  do 3 (split; [reflexivity|]).
  exists payload, opened, img, inputs, ids, px.
  exists generated_ids, generated_text, texts. repeat split; done.
Qed.

(** C7.  Whenever a generated tensor is decoded, it is the one [generate]
    returned, it is decoded with [skip_special_tokens=False], and that is all
    that happens after generation except for one call of the parser, made when
    decoding returned a first text: with that text as it is, the task of
    the request whatever it is, and the size of the image the upload decoded
    to.  What the parser returns is the result, what it raises ends the
    request. *)
Theorem post_processing_contract
    (file : upload) (task_field : option string) (log : list call)
    (res : res failure response) (n : nat) (ids : tensor) (skip : bool) :
  caption file task_field [] = (log, res) →
  log !! n = Some (CallBatchDecode ids skip) →
  let task := default DEFAULT_TASK task_field in
  skip = false
  ∧ ∃ before kwargs,
      generate model kwargs = Ok ids
      ∧ match batch_decode ids false with
        | Raise e =>
            log = before ++ [CallGenerate kwargs; CallBatchDecode ids false]
            ∧ res = Raise (Uncaught e)
        | Ok [] =>
            log = before ++ [CallGenerate kwargs; CallBatchDecode ids false]
            ∧ res = Raise (Uncaught (PyExn "IndexError" "list index out of range"))
        | Ok (raw_text :: _) =>
            ∃ payload opened image,
              file_read file = Ok payload
              ∧ Image_open payload = Ok opened
              ∧ Image_convert opened "RGB" = Ok image
              ∧ log = before ++ [CallGenerate kwargs;
                                 CallBatchDecode ids false;
                                 CallPostProcess raw_text task (Image_size image)]
              ∧ res = match post_process_generation raw_text task (Image_size image) with
                      | Ok parsed => Ok (Response MODEL_ID task parsed)
                      | Raise e => Raise (Uncaught e)
                      end
        end.
Proof.
  intros Hrun Hn task. apply list_elem_of_lookup_2 in Hn. revert Hrun Hn.
  caption_cases; intros [= <- <-] Hn; log_member Hn.
  all: injection Hn as <- ->; split; [reflexivity|].
  all: eexists (_ :: _ :: _ :: _ :: _), _; split; [exact Hgen|].
  all: rewrite Hdec.
  1,4: split; reflexivity.
  all: exists payload, opened, img; subst task; rewrite Hpost; done.
Qed.
(** ** Requests served together *)

Lemma caption_log_head (file : upload) (task_field : option string) :
  (caption file task_field []).1
  = CallRead file :: tail (caption file task_field []).1.
Proof. caption_cases; reflexivity. Qed.

Lemma serialized_spans (i : nat) (log : list call) (rest : list (nat * event)) :
  serialized None ((pair i <$> spans log) ++ rest) = serialized None rest.
Proof.
  induction log as [|c log IH]; [done|].
  change (spans (c :: log)) with (Enter c :: Leave c :: spans log).
  destruct c; cbn [fmap list_fmap app serialized]; rewrite ?Nat.eqb_refl; exact IH.
Qed.

Lemma spans_generate_adjacent (log : list call) (r : res failure response)
    (before after : list event) (kwargs : list (string * kwarg)) :
  spans log ++ [Answer r] = before ++ Enter (CallGenerate kwargs) :: after →
  ∃ later, after = Leave (CallGenerate kwargs) :: later.
Proof.
  revert before. induction log as [|c log IH]; intros before Hsplit.
  - destruct before as [|e [|e' before]]; discriminate Hsplit.
  - change (spans (c :: log)) with (Enter c :: Leave c :: spans log) in Hsplit.
    destruct before as [|e [|e' before]].
    + injection Hsplit as -> <-. by eexists.
    + discriminate Hsplit.
    + injection Hsplit as _ _ Hsplit. by apply (IH before).
Qed.

Lemma stretch_generate_adjacent (file : upload) (task_field : option string)
    (stretch before after : list event) (kwargs : list (string * kwarg)) :
  stretch ∈ caption_stretches file task_field →
  stretch = before ++ Enter (CallGenerate kwargs) :: after →
  ∃ later, after = Leave (CallGenerate kwargs) :: later.
Proof.
  unfold caption_stretches. intros Hin Hsplit.
  apply elem_of_cons in Hin as [-> | Hin].
  { destruct before as [|e [|e' before]]; discriminate Hsplit. }
  apply list_elem_of_singleton in Hin as ->.
  destruct before as [|e before]; [discriminate Hsplit|].
  injection Hsplit as _ Hsplit. by eapply spans_generate_adjacent.
Qed.

Lemma event_loop_generate_adjacent (schedule : list nat) :
  ∀ ready,
    Forall (Forall (λ stretch, ∀ before kwargs after,
                      stretch = before ++ Enter (CallGenerate kwargs) :: after →
                      ∃ later, after = Leave (CallGenerate kwargs) :: later)) ready →
    ∀ before i kwargs after,
      event_loop schedule ready = before ++ (i, Enter (CallGenerate kwargs)) :: after →
      ∃ later, after = (i, Leave (CallGenerate kwargs)) :: later.
Proof.
  induction schedule as [|j later IH]; intros ready Hready before i kwargs after Hsplit.
  { destruct before; discriminate Hsplit. }
  cbn [event_loop] in Hsplit.
  destruct (ready !! j) as [[|stretch remaining]|] eqn:Hj;
    [by eapply IH| |by eapply IH].
  pose proof (Forall_lookup_1 _ _ _ _ Hready Hj) as Hstretches.
  apply Forall_cons in Hstretches as [Hstretch Hremaining].
  assert (Forall (Forall (λ stretch, ∀ before kwargs after,
                      stretch = before ++ Enter (CallGenerate kwargs) :: after →
                      ∃ later, after = Leave (CallGenerate kwargs) :: later))
            (<[j := remaining]> ready)) as Hready' by (by apply Forall_insert).
  apply List.app_eq_app in Hsplit as [middle [[Hown Hrest] | [Hbefore Hrest]]].
  - destruct middle as [|x middle].
    + cbn in Hrest. symmetry in Hrest. by apply (IH _ Hready' []) in Hrest.
    + injection Hrest as <- ->.
      apply fmap_app_inv in Hown as (own_before & own_rest & -> & Hown & ->).
      symmetry in Hown. apply fmap_cons_inv in Hown as (e & own_after & [= <- <-] & -> & ->).
      destruct (Hstretch own_before kwargs own_after eq_refl) as [own_later ->].
      by eexists.
  - by apply (IH _ Hready' middle) in Hrest.
Qed.

Lemma serialized_stretch (file : upload) (task_field : option string)
    (stretch : list event) (i : nat) (rest : list (nat * event)) :
  stretch ∈ caption_stretches file task_field →
  serialized None ((pair i <$> stretch) ++ rest) = serialized None rest.
Proof.
  unfold caption_stretches. intros Hin.
  apply elem_of_cons in Hin as [-> | Hin]; [done|].
  apply list_elem_of_singleton in Hin as ->.
  rewrite fmap_cons, fmap_app, <- app_comm_cons, <- app_assoc.
  cbn [serialized]. by rewrite serialized_spans.
Qed.

Lemma serialized_event_loop (schedule : list nat) :
  ∀ ready,
    Forall (Forall (λ stretch, ∀ i rest,
                      serialized None ((pair i <$> stretch) ++ rest)
                      = serialized None rest)) ready →
    serialized None (event_loop schedule ready) = true.
Proof.
  induction schedule as [|i later IH]; intros ready Hready; [done|].
  cbn [event_loop]. destruct (ready !! i) as [[|stretch remaining]|] eqn:Hi;
    [by apply IH| |by apply IH].
  pose proof (Forall_lookup_1 _ _ _ _ Hready Hi) as Hstretches.
  apply Forall_cons in Hstretches as [Hstretch Hremaining].
  rewrite Hstretch. apply IH. by apply Forall_insert.
Qed.

Lemma events_of_app (i : nat) (t1 t2 : list (nat * event)) :
  events_of i (t1 ++ t2) = events_of i t1 ++ events_of i t2.
Proof. apply omap_app. Qed.

Lemma events_of_own (i : nat) (stretch : list event) :
  events_of i (pair i <$> stretch) = stretch.
Proof.
  induction stretch as [|e stretch IH]; [done|].
  cbn. rewrite decide_True by done. f_equal. exact IH.
Qed.

Lemma events_of_other (i j : nat) (stretch : list event) :
  j ≠ i → events_of i (pair j <$> stretch) = [].
Proof.
  intros Hne. induction stretch as [|e stretch IH]; [done|].
  cbn. rewrite decide_False by done. exact IH.
Qed.

Lemma events_of_event_loop (schedule : list nat) :
  ∀ ready i remaining,
    ready !! i = Some remaining →
    events_of i (event_loop schedule ready)
    = concat (take (count_occ Nat.eq_dec schedule i) remaining).
Proof.
  induction schedule as [|j later IH]; intros ready i remaining Hi; [done|].
  cbn [event_loop count_occ]. destruct (Nat.eq_dec j i) as [-> | Hne].
  - rewrite Hi. destruct remaining as [|stretch remaining].
    + rewrite (IH _ _ _ Hi). by rewrite !take_nil.
    + rewrite events_of_app, events_of_own.
      rewrite (IH _ i remaining); [done|].
      apply list_lookup_insert_eq. by eapply lookup_lt_Some.
  - destruct (ready !! j) as [[|stretch rest]|] eqn:Hj; [by apply IH| |by apply IH].
    rewrite events_of_app, events_of_other by done.
    apply IH. by rewrite list_lookup_insert_ne.
Qed.

(** C5.  However the event loop takes turns between any number of requests
    in flight, no [model.generate] begins while another is under way: a
    [model.generate] that begins is ended by the same request before anything
    else happens in any request.  What is seen of each request is a
    beginning of what it does when served alone; and a request that was
    resumed after its read has made exactly the calls of its own sequential
    run and is answered with the outcome [caption] has for its own upload
    and task. *)
Theorem concurrent_requests_are_serialized
    (requests : list (upload * option string)) (schedule : list nat) :
  let trace := serve requests schedule in
  serialized None trace = true
  ∧ (∀ before i kwargs after,
       trace = before ++ (i, Enter (CallGenerate kwargs)) :: after →
       ∃ later, after = (i, Leave (CallGenerate kwargs)) :: later)
  ∧ ∀ i file task_field,
      requests !! i = Some (file, task_field) →
      let log := (caption file task_field []).1 in
      let answer := (caption file task_field []).2 in
      events_of i trace `prefix_of` spans log ++ [Answer answer]
      ∧ ((2 ≤ count_occ Nat.eq_dec schedule i)%nat →
         events_of i trace = spans log ++ [Answer answer]).
Proof.
  intros trace. subst trace. unfold serve. split; [|split].
  - apply serialized_event_loop. apply Forall_fmap, Forall_forall.
    intros [file task_field] _. apply Forall_forall. intros stretch Hin i rest.
    by eapply serialized_stretch.
  - apply event_loop_generate_adjacent. apply Forall_fmap, Forall_forall.
    intros [file task_field] _. apply Forall_forall. intros stretch Hin before kwargs after.
    by eapply stretch_generate_adjacent.
  - intros i upl task_field Hi.
    rewrite (events_of_event_loop schedule _ i (caption_stretches upl task_field))
      by (by rewrite list_lookup_fmap, Hi).
    assert (concat (caption_stretches upl task_field)
            = spans (caption upl task_field []).1
              ++ [Answer (caption upl task_field []).2]) as Hwhole.
    { rewrite (caption_log_head upl task_field) at 1.
      unfold caption_stretches, spans. cbn [concat app flat_map].
      by rewrite app_nil_r. }
    rewrite <- Hwhole. split.
    + rewrite <- (take_drop (count_occ Nat.eq_dec schedule i)
                    (caption_stretches upl task_field)) at 2.
      rewrite concat_app. by apply prefix_app_r.
    + intros Hturns. rewrite take_ge; [done|]. cbn. lia.
Qed.

End Caption.

(** ** The health probe *)

(** C4, as the code has it.  [health] is a value: it cannot fail.  It is the
    dict of ["status"], ["model_id"] and ["device"], in this order; the status
    is ["ok"]; the identifier is that of the loaded model, and is not empty
    unless the environment sets FLORENCE_MODEL_ID to the empty string; the
    device is that of the loaded model, ["cpu"] or ["cuda"]. *)
Theorem health_reports_model_and_device `{Framework} :
  getenv "FLORENCE_MODEL_ID" ≠ Some "" →
  ∃ model_id device,
    health = [("status", JStr "ok"); ("model_id", JStr model_id); ("device", JStr device)]
    ∧ model_id = model_name model
    ∧ model_id ≠ ""
    ∧ device = model_device model
    ∧ (device = "cpu" ∨ device = "cuda").
Proof.
  intros Henv. exists MODEL_ID, DEVICE. repeat split.
  - unfold MODEL_ID. destruct (getenv "FLORENCE_MODEL_ID") as [id|]; cbn.
    + intros ->. by apply Henv.
    + discriminate.
  - unfold DEVICE. destruct cuda_is_available; auto.
Qed.

(** C4, as the specification has it, fails where a CUDA device is present:
    the device reported is ["cuda"], which is neither ["cpu"] nor ["gpu"]. *)
Lemma health_device_is_not_gpu :
  ¬ ∃ device,
      dict_get (@health sample_framework) "device" = Some (JStr device)
      ∧ (device = "cpu" ∨ device = "gpu").
Proof. intros (device & [= <-] & [Hd | Hd]); discriminate Hd. Qed.

(** ** The review tool *)

Section Review.
Context `{Host}.

Lemma readonly_ret {A} (a : A) : readonly (mret a).
Proof. by intros w. Qed.

Lemma readonly_throw {A} (e : pyexn) : readonly (throw (A := A) e).
Proof. by intros w. Qed.

Lemma readonly_read {A} (f : world → A) : readonly (read f).
Proof. by intros w. Qed.

Lemma readonly_bind {A B} (m : W A) (k : A → W B) :
  readonly m → (∀ a, readonly (k a)) → readonly (m ≫= k).
Proof.
  intros Hm Hk w. unfold mbind, W_bind. specialize (Hm w).
  destruct (m w) as [w' [a|e]]; cbn in *; subst w'; [apply Hk | done].
Qed.

Lemma readonly_get_record idx : readonly (get_record idx).
Proof.
  apply readonly_bind; [apply readonly_read|]. intros data.
  case_bool_decide; [apply readonly_ret|]. cbn zeta.
  destruct (list_getitem data _); [apply readonly_ret | apply readonly_throw].
Qed.

Lemma readonly_progress_text idx : readonly (progress_text idx).
Proof.
  apply readonly_bind; [apply readonly_read|]. intros n.
  destruct (n =? 0); apply readonly_ret.
Qed.

Lemma readonly_display_path v : readonly (display_path v).
Proof.
  unfold display_path. destruct (negb (truthy v)); [apply readonly_ret|].
  destruct v; try apply readonly_throw.
  destruct (_ && _); [apply readonly_ret|].
  apply readonly_bind; [apply readonly_read|]. intros d. apply readonly_ret.
Qed.

Lemma readonly_rec_get rec key dflt : readonly (rec_get rec key dflt).
Proof. destruct rec as [[pos r]|]; [apply readonly_ret | apply readonly_throw]. Qed.

Create HintDb readonly.
Local Hint Resolve readonly_ret readonly_throw readonly_read readonly_get_record
  readonly_progress_text readonly_display_path readonly_rec_get : readonly.

Ltac readonly_steps :=
  repeat first
    [ apply readonly_bind; [solve [auto with readonly]|intros ?]
    | match goal with |- readonly (let '(_, _) := ?p in _) => destruct p end
    | solve [auto with readonly] ].

Lemma readonly_nav_show idx : readonly (nav_show idx).
Proof. unfold nav_show. readonly_steps. Qed.

Lemma readonly_load_first idx : readonly (load_first idx).
Proof.
  unfold load_first. apply readonly_bind; [auto with readonly|]. intros data.
  case_bool_decide; readonly_steps.
Qed.

(** Bounds of [clamp_index], and the lookup they make safe. *)
Lemma clamp_index_bounds idx length :
  0 < length → 0 ≤ clamp_index idx length ≤ length - 1.
Proof.
  intros Hlen. unfold clamp_index.
  destruct (Z.eqb_spec length 0); lia.
Qed.

Lemma clamp_index_idem idx length :
  clamp_index (clamp_index idx length) length = clamp_index idx length.
Proof. unfold clamp_index. destruct (Z.eqb_spec length 0); lia. Qed.

Lemma len_pos {A} (l : list A) : l ≠ [] → 0 < len l.
Proof. destruct l; [done|]. intros _. unfold len. cbn. lia. Qed.

Lemma len_insert {A} (l : list A) i x : len (<[i := x]> l) = len l.
Proof. unfold len. by rewrite length_insert. Qed.

Lemma list_getitem_clamp {A} (l : list A) idx :
  l ≠ [] →
  ∃ x, l !! Z.to_nat (clamp_index idx (len l)) = Some x
       ∧ list_getitem l (clamp_index idx (len l))
         = Ok (Z.to_nat (clamp_index idx (len l)), x).
Proof.
  intros Hne. pose proof (clamp_index_bounds idx (len l) (len_pos l Hne)) as Hb.
  destruct (lookup_lt_is_Some_2 l (Z.to_nat (clamp_index idx (len l)))) as [x Hx].
  { unfold len in *. lia. }
  exists x. split; [done|]. unfold list_getitem.
  destruct (Z.ltb_spec (clamp_index idx (len l)) 0); [lia|].
  destruct (Z.leb_spec 0 (clamp_index idx (len l))); [|lia].
  destruct (Z.ltb_spec (clamp_index idx (len l)) (len l)); [|lia].
  cbn. by rewrite Hx.
Qed.

Lemma get_record_run idx w :
  DATA w ≠ [] →
  ∃ rec, DATA w !! Z.to_nat (clamp_index idx (len (DATA w))) = Some rec
         ∧ get_record idx w
           = (w, Ok (Some (Z.to_nat (clamp_index idx (len (DATA w))), rec),
                     clamp_index idx (len (DATA w)))).
Proof.
  intros Hne. destruct (list_getitem_clamp (DATA w) idx Hne) as (rec & Hrec & Hget).
  exists rec. split; [done|]. unfold get_record, mbind, W_bind, read.
  rewrite bool_decide_eq_false_2 by done. by rewrite Hget.
Qed.
(** Dict operations. *)
Lemma dict_get_set_eq (d : record) key v : dict_get (dict_set d key v) key = Some v.
Proof.
  induction d as [|[k w] rest IH]; cbn.
  - by rewrite String.eqb_refl.
  - destruct (String.eqb k key) eqn:Hk; cbn; rewrite Hk; [done | exact IH].
Qed.

Lemma dict_get_set_ne (d : record) key key' v :
  key' ≠ key → dict_get (dict_set d key v) key' = dict_get d key'.
Proof.
  intros Hne. induction d as [|[k w] rest IH]; cbn.
  - destruct (String.eqb_spec key key'); [congruence | done].
  - destruct (String.eqb_spec k key) as [->|Hk]; cbn.
    + destruct (String.eqb_spec key key'); [congruence | done].
    + destruct (String.eqb k key'); [done | exact IH].
Qed.

Lemma dict_get_snoc (d : record) key key' v :
  dict_get (d ++ [(key, v)]) key'
  = match dict_get d key' with
    | Some x => Some x
    | None => if String.eqb key key' then Some v else None
    end.
Proof.
  induction d as [|[k w] rest IH]; cbn; [done|].
  destruct (String.eqb k key'); [done | exact IH].
Qed.

Lemma dict_get_setdefault (d : record) key key' v :
  dict_get (dict_setdefault d key v) key'
  = match dict_get d key' with
    | Some x => Some x
    | None => if String.eqb key key' then Some v else None
    end.
Proof.
  unfold dict_setdefault. destruct (dict_get d key) as [x|] eqn:Hk.
  - destruct (dict_get d key') eqn:Hk'; [done|].
    destruct (String.eqb_spec key key'); [congruence | done].
  - apply dict_get_snoc.
Qed.

Lemma ensure_keys_keeps (item : record) :
  (∀ key value, dict_get item key = Some value →
     dict_get (ensure_keys item) key = Some value)
  ∧ (∀ key, key ≠ "raw_caption" → key ≠ "final_caption" →
       dict_get (ensure_keys item) key = dict_get item key).
Proof.
  unfold ensure_keys. split.
  - intros key value Hk. rewrite !dict_get_setdefault. by rewrite Hk.
  - intros key Hraw Hfinal. rewrite !dict_get_setdefault.
    destruct (dict_get item key); [done|].
    destruct (String.eqb_spec "raw_caption" key); [congruence|].
    destruct (String.eqb_spec "final_caption" key); [congruence | done].
Qed.

Lemma ensure_all_keeps (items : list json) (data : list record) :
  ensure_all items = Ok data →
  Forall2 (λ item rec, ∃ fields,
             item = JObj fields
             ∧ (∀ key value, dict_get fields key = Some value →
                  dict_get rec key = Some value)
             ∧ (∀ key, key ≠ "raw_caption" → key ≠ "final_caption" →
                  dict_get rec key = dict_get fields key))
    items data.
Proof.
  revert data. induction items as [|item rest IH]; intros data Hload; cbn in Hload.
  - injection Hload as <-. constructor.
  - destruct item as [| | | | | |fields]; try discriminate Hload.
    destruct (ensure_all rest) as [done_|e]; [|discriminate Hload].
    injection Hload as <-. constructor; [|by apply IH].
    exists fields. split; [done|]. apply ensure_keys_keeps.
Qed.

(** What a save can hold: the cells of the CSV are among the strings of the
    JSON document, so the CSV goes through whenever the JSON did. *)
Lemma json_encodable_obj (fields : record) :
  json_encodable (JObj fields)
  = forallb (λ field, utf8_encodable field.1 && json_encodable field.2) fields.
Proof.
  cbn [json_encodable]. induction fields as [|[key value] rest IH]; [done|].
  cbn [forallb fst snd]. by rewrite IH.
Qed.

Lemma data_encodable_cons (rec : record) (data : list record) :
  data_encodable (rec :: data) = json_encodable (JObj rec) && data_encodable data.
Proof. reflexivity. Qed.

Lemma dict_get_encodable (rec : record) key value :
  json_encodable (JObj rec) = true → dict_get rec key = Some value →
  json_encodable value = true.
Proof.
  rewrite json_encodable_obj. induction rec as [|[k v] rest IH]; [done|].
  cbn [forallb dict_get fst snd]. intros [[_ Hv]%andb_true_iff Hrest]%andb_true_iff.
  destruct (String.eqb k key); [by intros [= <-] | by apply IH].
Qed.

Lemma csv_cells_encodable (rec : record) :
  json_encodable (JObj rec) = true →
  forallb csv_cell_encodable (csv_cells rec) = true.
Proof.
  intros Hrec.
  assert (∀ key, csv_cell_encodable (dict_get_default rec key (JStr "")) = true) as Hcell.
  { intros key. unfold dict_get_default.
    destruct (dict_get rec key) as [value|] eqn:Hkey; [|done].
    apply (dict_get_encodable _ _ _ Hrec) in Hkey. by destruct value. }
  cbn [csv_cells forallb]. by rewrite !Hcell.
Qed.

Lemma csv_written_through (data : list record) :
  data_encodable data = true →
  csv_written (map csv_cells data) = (map csv_cells data, true).
Proof.
  induction data as [|rec rest IH]; [done|].
  rewrite data_encodable_cons. intros [Hrec Hrest]%andb_true_iff.
  cbn [map csv_written]. by rewrite (csv_cells_encodable _ Hrec), (IH Hrest).
Qed.

Lemma save_files_written (data : list record) json_path csv_path disk :
  data_encodable data = true →
  save_files data json_path csv_path disk
  = (<[csv_path := CsvText ([JStr "image"; JStr "raw_caption"; JStr "final_caption"]
                            :: map csv_cells data)]>
       (<[json_path := JsonText (JArr (map JObj data))]> disk),
     Ok ()).
Proof.
  intros Hdata. unfold save_files. fold (data_encodable data). rewrite Hdata.
  change (map (λ row, DictWriter_row fieldnames (csv_rowdict row)) data)
    with (map csv_cells data).
  by rewrite (csv_written_through _ Hdata).
Qed.

Lemma save_files_broken (data : list record) json_path csv_path disk :
  data_encodable data = false →
  save_files data json_path csv_path disk
  = (<[json_path := BrokenJson]> disk,
     Raise (PyExn "UnicodeEncodeError" "surrogates not allowed")).
Proof. intros Hdata. unfold save_files. fold (data_encodable data). by rewrite Hdata. Qed.

(** What [display_path] can do. *)
Lemma display_path_raises v w e :
  (display_path v w).2 = Raise e → exn_class e = "TypeError".
Proof.
  unfold display_path. destruct (negb (truthy v)); [discriminate|].
  destruct v; cbn; try (by intros [= <-]).
  destruct (_ && _); discriminate.
Qed.

Lemma display_path_returns v w :
  v = JNull ∨ (∃ p, v = JStr p) → ∃ shown, (display_path v w).2 = Ok shown.
Proof.
  intros [-> | [p ->]]; [by eexists|].
  unfold display_path. destruct (negb (truthy _)); [by eexists|].
  destruct (_ && _); by eexists.
Qed.

Lemma image_is_path_get (rec : record) dflt :
  image_is_path rec = true → dflt = JNull ∨ (∃ p, dflt = JStr p) →
  dict_get_default rec "image" dflt = JNull
  ∨ ∃ p, dict_get_default rec "image" dflt = JStr p.
Proof.
  unfold image_is_path, dict_get_default. intros Himg Hd.
  destruct (dict_get rec "image") as [[]|]; cbn; try done. right. by eexists.
Qed.

(** The common tail of [nav]: it shows the record at the clamped index. *)
Lemma nav_show_run idx w :
  DATA w ≠ [] →
  ∃ rec progress,
    DATA w !! Z.to_nat (clamp_index idx (len (DATA w))) = Some rec
    ∧ nav_show idx w
      = (w, match (display_path (dict_get_default rec "image" (JStr "")) w).2 with
            | Ok shown =>
                Ok (View shown (dict_get_default rec "final_caption" (JStr "")) progress
                      ("Saved " +:+ time_strftime "%H:%M:%S")
                      (clamp_index idx (len (DATA w))) true true true true true)
            | Raise e => Raise e
            end).
Proof.
  intros Hne. destruct (get_record_run idx w Hne) as (rec & Hrec & Hget).
  exists rec. unfold nav_show, mbind, W_bind. rewrite Hget. cbn [rec_get mret W_ret].
  pose proof (readonly_display_path (dict_get_default rec "image" (JStr "")) w) as Hro.
  destruct (display_path _ w) as [w1 [shown|e]]; cbn in Hro; subst w1; cbn [snd].
  - unfold progress_text, mbind, W_bind, read, mret, W_ret.
    destruct (len (DATA w) =? 0); by eexists.
  - by exists "".
Qed.

(** The ["end"] branch: the same record again, buttons off. *)
Lemma nav_end_run idx w :
  DATA w ≠ [] →
  ∃ rec progress,
    DATA w !! Z.to_nat (clamp_index idx (len (DATA w))) = Some rec
    ∧ nav_end_branch idx w
      = (w, match (display_path (dict_get_default rec "image" JNull) w).2 with
            | Ok shown =>
                Ok (View shown (dict_get_default rec "final_caption" (JStr "")) progress
                      "Session ended. Close this tab if you're done."
                      (clamp_index idx (len (DATA w))) false false false false false)
            | Raise e => Raise e
            end).
Proof.
  intros Hne. destruct (get_record_run idx w Hne) as (rec & Hrec & Hget).
  exists rec. unfold nav_end_branch, mbind, W_bind. rewrite Hget. cbn [rec_get mret W_ret].
  pose proof (readonly_display_path (dict_get_default rec "image" JNull) w) as Hro.
  destruct (display_path _ w) as [w1 [shown|e]]; cbn in Hro; subst w1; cbn [snd].
  - unfold progress_text, mbind, W_bind, read, mret, W_ret.
    destruct (len (DATA w) =? 0); by eexists.
  - by exists "".
Qed.
Lemma readonly_nav_end_branch idx : readonly (nav_end_branch idx).
Proof. unfold nav_end_branch. readonly_steps. Qed.

(** [nav] on a non-empty [DATA]: the save, then the branch for the direction,
    run on what was saved. *)
Lemma nav_run direction caption_text idx w :
  DATA w ≠ [] →
  ∃ rec,
    DATA w !! Z.to_nat (clamp_index idx (len (DATA w))) = Some rec
    ∧ let c := clamp_index idx (len (DATA w)) in
      let w' := after_save w (Z.to_nat c) rec caption_text in
      len (DATA w') = len (DATA w)
      ∧ nav direction caption_text idx w
        = if data_encodable (DATA w') then
            (if String.eqb direction "next" then nav_show (clamp_index (c + 1) (len (DATA w)))
             else if String.eqb direction "prev" then nav_show (clamp_index (c - 1) (len (DATA w)))
             else if String.eqb direction "first" then nav_show 0
             else if String.eqb direction "last" then nav_show (len (DATA w) - 1)
             else if String.eqb direction "end" then nav_end_branch c
             else nav_show c) w'
          else (w', Raise (PyExn "UnicodeEncodeError" "surrogates not allowed")).
Proof.
  intros Hne. destruct (get_record_run idx w Hne) as (rec & Hrec & Hget).
  exists rec. split; [done|]. cbn zeta.
  assert (len (DATA (after_save w (Z.to_nat (clamp_index idx (len (DATA w)))) rec
                       caption_text)) = len (DATA w)) as Hlen.
  { cbn. apply len_insert. }
  split; [done|].
  unfold nav. unfold mbind at 1, W_bind at 1, read at 1.
  rewrite bool_decide_eq_false_2 by done.
  unfold mbind at 1, W_bind at 1. rewrite Hget. cbn [rec_setitem].
  unfold mbind at 1, W_bind at 1. unfold mbind at 1, W_bind at 1, save_globals.
  cbv beta zeta.
  set (w1 := World _ (JSON_PATH w) (CSV_PATH w) (DATA_DIR w) (files w)).
  change (data_encodable (DATA (after_save w _ rec caption_text)))
    with (data_encodable (DATA w1)).
  destruct (data_encodable (DATA w1)) eqn:Hdata.
  - rewrite (save_files_written _ (JSON_PATH w1) (CSV_PATH w1) (files w1) Hdata).
    cbn [fst snd]. unfold mbind, W_bind, read. cbn [DATA].
    unfold after_save. rewrite (save_files_written _ _ _ _ Hdata).
    subst w1. cbn [DATA JSON_PATH CSV_PATH DATA_DIR files fst]. rewrite !len_insert.
    reflexivity.
  - rewrite (save_files_broken _ (JSON_PATH w1) (CSV_PATH w1) (files w1) Hdata).
    unfold after_save. by rewrite (save_files_broken _ _ _ _ Hdata).
Qed.
Lemma after_save_nonempty w pos rec caption_text :
  DATA w ≠ [] → DATA (after_save w pos rec caption_text) ≠ [].
Proof.
  intros Hne Heq. apply (f_equal length) in Heq. cbn in Heq.
  rewrite length_insert in Heq. by destruct (DATA w).
Qed.

Lemma nav_world direction caption_text idx w :
  DATA w ≠ [] →
  ∃ rec,
    DATA w !! Z.to_nat (clamp_index idx (len (DATA w))) = Some rec
    ∧ (nav direction caption_text idx w).1
      = after_save w (Z.to_nat (clamp_index idx (len (DATA w)))) rec caption_text.
Proof.
  intros Hne. destruct (nav_run direction caption_text idx w Hne) as (rec & Hrec & _ & ->).
  exists rec. split; [done|].
  repeat match goal with |- context [if ?b then _ else _] => destruct b end;
    first [apply readonly_nav_show | apply readonly_nav_end_branch | reflexivity].
Qed.

(** What either branch returns: the clamped index, unless showing the path
    fails. *)
Lemma nav_show_index idx w :
  DATA w ≠ [] →
  match (nav_show idx w).2 with
  | Ok v => v_idx v = clamp_index idx (len (DATA w))
  | Raise e => exn_class e = "TypeError"
  end
  ∧ (Forall (λ rec, image_is_path rec = true) (DATA w) →
     ∃ v, (nav_show idx w).2 = Ok v).
Proof.
  intros Hne. destruct (nav_show_run idx w Hne) as (rec & progress & Hrec & ->).
  cbn [snd]. split.
  - destruct (display_path _ w) as [w1 [shown|e]] eqn:Hd; cbn [snd]; [done|].
    eapply display_path_raises. by rewrite Hd.
  - intros Hall. rewrite Forall_lookup in Hall. specialize (Hall _ _ Hrec).
    destruct (display_path_returns (dict_get_default rec "image" (JStr "")) w) as [shown ->].
    { apply image_is_path_get; [done|]. right. by eexists. }
    by eexists.
Qed.

Lemma nav_end_index idx w :
  DATA w ≠ [] →
  match (nav_end_branch idx w).2 with
  | Ok v => v_idx v = clamp_index idx (len (DATA w))
  | Raise e => exn_class e = "TypeError"
  end
  ∧ (Forall (λ rec, image_is_path rec = true) (DATA w) →
     ∃ v, (nav_end_branch idx w).2 = Ok v).
Proof.
  intros Hne. destruct (nav_end_run idx w Hne) as (rec & progress & Hrec & ->).
  cbn [snd]. split.
  - destruct (display_path _ w) as [w1 [shown|e]] eqn:Hd; cbn [snd]; [done|].
    eapply display_path_raises. by rewrite Hd.
  - intros Hall. rewrite Forall_lookup in Hall. specialize (Hall _ _ Hrec).
    destruct (display_path_returns (dict_get_default rec "image" JNull) w) as [shown ->].
    { apply image_is_path_get; [done|]. by left. }
    by eexists.
Qed.

Lemma after_save_images w pos rec caption_text :
  DATA w !! pos = Some rec →
  Forall (λ rec, image_is_path rec = true) (DATA w) →
  Forall (λ rec, image_is_path rec = true) (DATA (after_save w pos rec caption_text)).
Proof.
  intros Hrec Hall. cbn. apply Forall_insert; [done|].
  rewrite Forall_lookup in Hall. specialize (Hall _ _ Hrec).
  unfold image_is_path in *. by rewrite dict_get_set_ne.
Qed.


(** C9.  Loading keeps every key a record of the file has, with its value,
    and adds no key but [raw_caption] and [final_caption]; a navigation
    action, on any globals and for any direction, keeps the number of records
    and under every key other than [final_caption] what each record had;
    the first display changes nothing. *)
Theorem review_changes_only_final_caption :
  (∀ disk json_path items data,
     disk !! json_path = Some (JsonText (JArr items)) →
     load_captions disk json_path = Ok data →
     Forall2 (λ item rec, ∃ fields,
                item = JObj fields
                ∧ (∀ key value, dict_get fields key = Some value →
                     dict_get rec key = Some value)
                ∧ (∀ key, key ≠ "raw_caption" → key ≠ "final_caption" →
                     dict_get rec key = dict_get fields key))
       items data)
  ∧ (∀ direction caption_text idx w,
       Forall2 (λ before after, ∀ key, key ≠ "final_caption" →
                  dict_get after key = dict_get before key)
         (DATA w) (DATA (nav direction caption_text idx w).1))
  ∧ (∀ idx w, (load_first idx w).1 = w).
Proof.
  split; [|split].
  - intros disk json_path items data Hfile. unfold load_captions. rewrite Hfile.
    apply ensure_all_keeps.
  - intros direction caption_text idx w.
    destruct (decide (DATA w = [])) as [Hnil | Hne].
    + unfold nav, mbind, W_bind, read. rewrite bool_decide_eq_true_2 by done.
      cbn. rewrite Hnil. constructor.
    + destruct (nav_world direction caption_text idx w Hne) as (rec & Hrec & ->).
      cbn [after_save DATA]. apply Forall2_same_length_lookup.
      split; [by rewrite length_insert|].
      intros i before after Hbefore Hafter key Hkey.
      destruct (decide (i = Z.to_nat (clamp_index idx (len (DATA w))))) as [-> | Hi].
      * rewrite list_lookup_insert_eq in Hafter by (by eapply lookup_lt_Some).
        injection Hafter as <-. rewrite dict_get_set_ne by done. congruence.
      * rewrite list_lookup_insert_ne in Hafter by done. congruence.
  - intros idx w. apply readonly_load_first.
Qed.

(** C10.  [clamp_index] lands in [0, length-1] for a positive length and on
    0 for length 0; on a non-empty [DATA] [get_record] finds a record at the
    clamped index, whatever the index; [nav] never fails on an index (the two
    ways it can fail are a path of the wrong type and a text the files cannot
    hold), returns an index in range, the last one after ["next"] at or past
    the end and the first after ["prev"] at or before the start; and it does
    return when every image field is a string or absent and every string of
    the records it leaves can be encoded. *)
Theorem index_access_stays_in_bounds
    (direction caption_text : string) (idx : Z) (w : world) :
  DATA w ≠ [] →
  let n := len (DATA w) in
  (∀ i length, 0 < length → 0 ≤ clamp_index i length ≤ length - 1)
  ∧ (∀ i, clamp_index i 0 = 0)
  ∧ (∃ pos rec,
       get_record idx w = (w, Ok (Some (pos, rec), clamp_index idx n))
       ∧ Z.of_nat pos = clamp_index idx n
       ∧ DATA w !! pos = Some rec)
  ∧ match (nav direction caption_text idx w).2 with
    | Ok v =>
        0 ≤ v_idx v ≤ n - 1
        ∧ (direction = "next" → n - 1 ≤ idx → v_idx v = n - 1)
        ∧ (direction = "prev" → idx ≤ 0 → v_idx v = 0)
    | Raise e => exn_class e = "TypeError" ∨ exn_class e = "UnicodeEncodeError"
    end
  ∧ (Forall (λ rec, image_is_path rec = true) (DATA w) →
     data_encodable (DATA (nav direction caption_text idx w).1) = true →
     ∃ v, (nav direction caption_text idx w).2 = Ok v).
Proof.
  intros Hne n. pose proof (len_pos _ Hne) as Hn. fold n in Hn.
  split; [exact clamp_index_bounds|]. split; [done|]. split.
  { destruct (get_record_run idx w Hne) as (rec & Hrec & Hget).
    pose proof (clamp_index_bounds idx n Hn).
    exists (Z.to_nat (clamp_index idx n)), rec. split; [done|]. split; [lia | done]. }
  destruct (nav_run direction caption_text idx w Hne) as (rec & Hrec & Hlen & ->).
  fold n in Hlen |- *.
  set (w' := after_save w (Z.to_nat (clamp_index idx n)) rec caption_text) in *.
  destruct (data_encodable (DATA w')) eqn:Hdata;
    [|split; [by right | cbn [fst]; intros _ Hbad; congruence]].
  assert (DATA w' ≠ []) as Hne' by (by apply after_save_nonempty).
  assert (Forall (λ rec, image_is_path rec = true) (DATA w) →
          Forall (λ rec, image_is_path rec = true) (DATA w')) as Himg
    by (by apply after_save_images).
  pose proof (clamp_index_bounds idx n Hn) as Hc.
  assert (∀ i, match (nav_show i w').2 with
               | Ok v => v_idx v = clamp_index i n
               | Raise e => exn_class e = "TypeError"
               end) as Hshow.
  { intros i. destruct (nav_show_index i w' Hne') as [Hi _]. by rewrite Hlen in Hi. }
  assert (match (nav_end_branch (clamp_index idx n) w').2 with
          | Ok v => v_idx v = clamp_index idx n
          | Raise e => exn_class e = "TypeError"
          end) as Hend.
  { destruct (nav_end_index (clamp_index idx n) w' Hne') as [Hi _].
    by rewrite Hlen, clamp_index_idem in Hi. }
  split.
  - destruct (String.eqb_spec direction "next") as [-> | Hnext].
    { specialize (Hshow (clamp_index (clamp_index idx n + 1) n)).
      destruct (nav_show _ w').2 as [v|e]; [|by left]. rewrite Hshow, clamp_index_idem.
      pose proof (clamp_index_bounds (clamp_index idx n + 1) n Hn).
      split; [done|]. split; [|done]. intros _ Hlast.
      unfold clamp_index in *. destruct (Z.eqb_spec n 0); lia. }
    destruct (String.eqb_spec direction "prev") as [-> | Hprev].
    { specialize (Hshow (clamp_index (clamp_index idx n - 1) n)).
      destruct (nav_show _ w').2 as [v|e]; [|by left]. rewrite Hshow, clamp_index_idem.
      pose proof (clamp_index_bounds (clamp_index idx n - 1) n Hn).
      split; [done|]. split; [done|]. intros _ Hfirst.
      unfold clamp_index in *. destruct (Z.eqb_spec n 0); lia. }
    destruct (String.eqb_spec direction "first") as [-> | Hfirst].
    { specialize (Hshow 0). destruct (nav_show _ w').2 as [v|e]; [|by left].
      rewrite Hshow. pose proof (clamp_index_bounds 0 n Hn).
      split; [assumption|]. split; intros Heq; congruence. }
    destruct (String.eqb_spec direction "last") as [-> | Hlast].
    { specialize (Hshow (n - 1)). destruct (nav_show _ w').2 as [v|e]; [|by left].
      rewrite Hshow. pose proof (clamp_index_bounds (n - 1) n Hn).
      split; [assumption|]. split; intros Heq; congruence. }
    destruct (String.eqb_spec direction "end") as [-> | Hend'].
    { destruct (nav_end_branch _ w').2 as [v|e]; [|by left]. rewrite Hend.
      split; [assumption|]. split; intros Heq; congruence. }
    specialize (Hshow (clamp_index idx n)).
    destruct (nav_show _ w').2 as [v|e]; [|by left]. rewrite Hshow, clamp_index_idem.
    split; [assumption|]. split; intros Heq; congruence.
  - intros Hall _. specialize (Himg Hall).
    repeat match goal with |- context [if ?b then _ else _] => destruct b end;
      first [by apply nav_show_index | by apply nav_end_index].
Qed.
End Review.

(** ** The properties on the sample installation *)

Lemma caption_rejects_undecodable_image_witness :
  @file_read sample_framework sample_bad_upload = Ok sample_bad_upload
  ∧ ∃ log,
      @caption sample_framework sample_engine sample_bad_upload (Some "<OD>") []
      = (log, Raise (HTTPException 400 "Invalid image: cannot identify image file"))
      ∧ ∀ c, c ∈ log → past_decoding c = false.
Proof.
  split; [reflexivity|].
  apply (@caption_rejects_undecodable_image sample_framework sample_engine
           sample_bad_upload (Some "<OD>") sample_bad_upload
           (PyExn "UnidentifiedImageError" "cannot identify image file")).
  - reflexivity.
  - left. reflexivity.
Defined.

Lemma generation_call_contract_witness :
  (@caption sample_framework sample_engine sample_upload None []).1 !! 7%nat
  = Some (CallGenerate sample_kwargs)
  ∧ generate_calls (@caption sample_framework sample_engine sample_upload None []).1
    = [sample_kwargs].
Proof.
  split; [vm_compute; reflexivity|].
  destruct (@generation_call_contract sample_framework sample_engine
              sample_upload None
              (@caption sample_framework sample_engine sample_upload None []).1
              (@caption sample_framework sample_engine sample_upload None []).2
              7%nat sample_kwargs)
    as (payload & opened & image & inputs & ids & px
        & _ & _ & _ & _ & _ & _ & _ & Hcalls & _).
  - vm_compute. reflexivity.
  - vm_compute. reflexivity.
  - exact Hcalls.
Defined.

Lemma health_reports_model_and_device_witness :
  @getenv sample_framework "FLORENCE_MODEL_ID" ≠ Some ""
  ∧ ∃ model_id device,
      @health sample_framework
      = [("status", JStr "ok"); ("model_id", JStr model_id); ("device", JStr device)]
      ∧ model_id = model_name (@model sample_framework)
      ∧ model_id ≠ ""
      ∧ device = model_device (@model sample_framework)
      ∧ (device = "cpu" ∨ device = "cuda").
Proof.
  split; [discriminate|].
  apply (@health_reports_model_and_device sample_framework). discriminate.
Defined.

Lemma concurrent_requests_are_serialized_witness :
  serialized None
    (@serve sample_framework sample_engine sample_requests [0; 1; 1; 0]%nat) = true
  ∧ sample_requests !! 1%nat = Some (sample_upload, Some "<OD>")
  ∧ events_of 1 (@serve sample_framework sample_engine sample_requests [0; 1; 1; 0]%nat)
    = spans (@caption sample_framework sample_engine sample_upload (Some "<OD>") []).1
      ++ [Answer (Ok (@Response sample_framework "microsoft/Florence-2-base" "<OD>"
                        "<OD></s>a cat</s>"))].
Proof.
  destruct (@concurrent_requests_are_serialized sample_framework sample_engine
              sample_requests [0; 1; 1; 0]%nat) as (Hserial & _ & Hown).
  split; [exact Hserial|]. split; [reflexivity|].
  apply (Hown 1%nat sample_upload (Some "<OD>")); [reflexivity|].
  cbn. lia.
Defined.

Lemma caption_response_contents_witness :
  ∃ r,
    (@post_caption sample_framework sample_engine sample_upload (Some "<OD>") []).2 = Ok r
    ∧ resp_model_id r = "microsoft/Florence-2-base"
    ∧ resp_task r = "<OD>".
Proof.
  exists (@Response sample_framework "microsoft/Florence-2-base" "<OD>"
            "<OD></s>a cat</s>").
  split; [vm_compute; reflexivity|].
  destruct (@caption_response_contents sample_framework sample_engine
              sample_upload (Some "<OD>")
              (@post_caption sample_framework sample_engine sample_upload
                 (Some "<OD>") []).1
              (@Response sample_framework "microsoft/Florence-2-base" "<OD>"
                 "<OD></s>a cat</s>"))
    as (Hid & _ & Htask & _).
  - vm_compute. reflexivity.
  - split; [exact Hid | exact Htask].
Defined.

(** C6, as the specification has it, fails for a client that sends an empty task:
    the answer names ["<CAPTION>"], not the empty string supplied. *)
Lemma empty_task_is_not_echoed :
  ∃ r,
    (@post_caption sample_framework sample_engine sample_upload (Some "") []).2 = Ok r
    ∧ resp_task r = "<CAPTION>"
    ∧ resp_task r ≠ "".
Proof.
  exists (@Response sample_framework "microsoft/Florence-2-base" "<CAPTION>"
            "<CAPTION></s>a cat</s>").
  split; [vm_compute; reflexivity|]. split; [reflexivity | discriminate].
Qed.

Lemma post_processing_contract_witness :
  (@caption sample_framework sample_engine sample_upload (Some "<OD>") []).1 !! 8%nat
  = Some (CallBatchDecode (sample_tensor int64 [1; 2] [4; 2]) false)
  ∧ ∃ before kwargs,
      @generate sample_framework sample_engine (@model sample_framework) kwargs
      = Ok (sample_tensor int64 [1; 2] [4; 2])
      ∧ ∃ payload opened image,
          @file_read sample_framework sample_upload = Ok payload
          ∧ @Image_open sample_framework payload = Ok opened
          ∧ @Image_convert sample_framework opened "RGB" = Ok image
          ∧ (@caption sample_framework sample_engine sample_upload (Some "<OD>") []).1
            = before ++ [CallGenerate kwargs;
                         CallBatchDecode (sample_tensor int64 [1; 2] [4; 2]) false;
                         CallPostProcess "</s>a cat</s>" "<OD>"
                           (@Image_size sample_framework image)]
          ∧ (@caption sample_framework sample_engine sample_upload (Some "<OD>") []).2
            = Ok (@Response sample_framework "microsoft/Florence-2-base" "<OD>"
                    "<OD></s>a cat</s>").
Proof.
  split; [vm_compute; reflexivity|].
  destruct (@post_processing_contract sample_framework sample_engine
              sample_upload (Some "<OD>")
              (@caption sample_framework sample_engine sample_upload (Some "<OD>") []).1
              (@caption sample_framework sample_engine sample_upload (Some "<OD>") []).2
              8%nat (sample_tensor int64 [1; 2] [4; 2]) false)
    as [_ Hrest].
  - vm_compute. reflexivity.
  - vm_compute. reflexivity.
  - exact Hrest.
Defined.



Lemma review_changes_only_final_caption_witness :
  Forall2 (λ before after, ∀ key, key ≠ "final_caption" →
             dict_get after key = dict_get before key)
    (DATA sample_world) (DATA (@nav sample_host "end" "a dog" 0 sample_world).1).
Proof.
  apply (proj1 (proj2 (@review_changes_only_final_caption sample_host))).
Defined.

Lemma index_access_stays_in_bounds_witness :
  DATA sample_world ≠ []
  ∧ match (@nav sample_host "next" "a dog" 5 sample_world).2 with
    | Ok v =>
        0 ≤ v_idx v ≤ len (DATA sample_world) - 1
        ∧ ("next" = "next" → len (DATA sample_world) - 1 ≤ 5 →
           v_idx v = len (DATA sample_world) - 1)
        ∧ ("next" = "prev" → 5 ≤ 0 → v_idx v = 0)
    | Raise e => exn_class e = "TypeError" ∨ exn_class e = "UnicodeEncodeError"
    end.
Proof.
  split; [discriminate|].
  apply (@index_access_stays_in_bounds sample_host "next" "a dog" 5 sample_world).
  discriminate.
Defined.

(** * Further properties of the service *)

Section Service.
Context `{Engine}.

(** [caption] case by case, as in the section above. *)
Ltac service_cases :=
  unfold caption, read_image;
  unfold mbind, M_bind, bind, try_except, uncaught, as_exception, invoke, mret, raise, ret;
  destruct (file_read _) as [payload|[e|e]] eqn:Hread;
  [destruct (Image_open _) as [opened|e] eqn:Hopen; [|]|..];
  [destruct (Image_convert _ "RGB") as [img|e] eqn:Hconv; [|]|..];
  [destruct (processor_call _ _ "pt") as [inputs|e] eqn:Hproc; [|]|..];
  [rewrite cast_loop_bundle; unfold getitem;
   destruct ((align <$> _) !! "input_ids") as [input_ids|] eqn:Hids;
     [|unfold raise]|..];
  [destruct ((align <$> _) !! "pixel_values") as [pixel_values|] eqn:Hpx;
     [unfold ret|unfold raise]|..];
  [destruct (generate _ _) as [generated_ids|e] eqn:Hgen; [|]|..];
  [destruct (batch_decode _ _) as [[|generated_text texts]|e] eqn:Hdec;
     unfold first_item; [unfold raise|unfold ret|]|..];
  [|destruct (post_process_generation _ _ _) as [result|e] eqn:Hpost; [|]|..];
  rewrite <- ?app_assoc; cbn [app].

Ltac service_member Hc :=
  repeat first
    [ apply elem_of_nil in Hc; destruct Hc
    | apply elem_of_cons in Hc as [Hc | Hc]; [try discriminate Hc|]
    | apply elem_of_app in Hc as [Hc | Hc];
      [apply list_elem_of_fmap in Hc as [[? ?] [Hc _]]; discriminate Hc|]
    | apply list_elem_of_fmap in Hc as [[? ?] [Hc _]]; discriminate Hc ].

Lemma DTYPE_floating : is_floating_point_dtype DTYPE = true.
Proof. unfold DTYPE, DEVICE. by destruct cuda_is_available. Qed.

Lemma align_kind (value : tensor) :
  is_floating_point (align value) = is_floating_point value.
Proof.
  unfold align, is_floating_point.
  destruct (is_floating_point_dtype (t_dtype value)) eqn:Hk; cbn; [|done].
  apply DTYPE_floating.
Qed.

Lemma align_device (value : tensor) : t_device (align value) = DEVICE.
Proof. unfold align. by destruct (is_floating_point value). Qed.

Lemma align_dtype (value : tensor) :
  t_dtype (align value) = if is_floating_point value then DTYPE else t_dtype value.
Proof. unfold align. by destruct (is_floating_point value). Qed.

Lemma align_shape (value : tensor) : t_shape (align value) = t_shape value.
Proof. unfold align. by destruct (is_floating_point value). Qed.

(** X1.  The model is loaded in half precision exactly when it is moved to
    CUDA, which is exactly when CUDA is available; otherwise it is in single
    precision on the CPU.  Either way its precision is a floating-point
    kind. *)
Theorem model_precision_follows_device :
  (model_dtype model = float16 ↔ model_device model = "cuda")
  ∧ (model_device model = "cuda" ↔ cuda_is_available = true)
  ∧ (model_dtype model = float32 ↔ model_device model = "cpu")
  ∧ (model_dtype model = float16 ∨ model_dtype model = float32)
  ∧ is_floating_point_dtype (model_dtype model) = true.
Proof.
  unfold model, model_to, from_pretrained, DTYPE, DEVICE. cbn.
  destruct cuda_is_available; cbn; repeat split; intros; try done; auto.
Qed.

(** X2.  The alignment loop keeps the kind of every array (floating-point
    stays floating-point, the rest stays what it was) and its shape, and a
    second pass over its own result changes no device, element kind or shape:
    the bundle it produces is already aligned. *)
Theorem alignment_pass_is_stable (inputs : gmap string tensor) (log log' : list call) :
  ∃ cast_inputs again,
    (cast_loop (E := failure) (map_to_list inputs) ∅ log).2 = Ok cast_inputs
    ∧ (cast_loop (E := failure) (map_to_list cast_inputs) ∅ log').2 = Ok again
    ∧ dom again = dom inputs
    ∧ ∀ key value, inputs !! key = Some value →
        ∃ moved moved',
          cast_inputs !! key = Some moved
          ∧ again !! key = Some moved'
          ∧ is_floating_point moved = is_floating_point value
          ∧ t_shape moved = t_shape value
          ∧ t_device moved' = t_device moved
          ∧ t_dtype moved' = t_dtype moved
          ∧ t_shape moved' = t_shape moved.
Proof.
  exists (align <$> inputs), (align <$> (align <$> inputs)).
  rewrite !cast_loop_bundle. cbn [snd].
  split; [done|]. split; [done|]. split; [by rewrite !dom_fmap_L|].
  intros key value Hk. exists (align value), (align (align value)).
  rewrite !lookup_fmap, Hk. cbn.
  split; [done|]. split; [done|]. split; [apply align_kind|].
  split; [apply align_shape|]. split; [by rewrite !align_device|].
  split; [|by rewrite !align_shape].
  rewrite (align_dtype (align value)), align_kind, align_dtype.
  by destruct (is_floating_point value).
Qed.

(** X3.  Every array handed to [model.generate] lives on the model's device,
    and the floating-point ones among them have the model's precision. *)
Theorem generate_receives_aligned_tensors
    (file : upload) (task_field : option string) (log : list call)
    (res : res failure response) (n : nat) (kwargs : list (string * kwarg))
    (name : string) (t : tensor) :
  caption file task_field [] = (log, res) →
  log !! n = Some (CallGenerate kwargs) →
  (name, KTensor t) ∈ kwargs →
  t_device t = model_device model
  ∧ (is_floating_point t = true → t_dtype t = model_dtype model).
Proof.
  intros Hrun Hn Hin. apply list_elem_of_lookup_2 in Hn. revert Hrun Hn.
  service_cases; intros [= <- <-] Hn; service_member Hn.
  all: injection Hn as ->.
  all: apply lookup_align in Hids as (ids & Hids & ->).
  all: apply lookup_align in Hpx as (px & Hpx & ->).
  all: repeat (apply elem_of_cons in Hin as [Hin | Hin];
               [try discriminate Hin; injection Hin as _ ->|]);
    try (by apply elem_of_nil in Hin).
  all: split; [apply align_device|].
  all: rewrite align_kind, align_dtype; by intros ->.
Qed.

(** X4.  When the processor's bundle lacks ["input_ids"], or has it and lacks
    ["pixel_values"], the request ends in an uncaught [KeyError] naming the
    first of the two that is missing; by then every array has been moved, and
    the model and the parser have not been called. *)
Theorem caption_missing_tensor_key
    (file : upload) (task_field : option string) (payload : list byte)
    (opened img : image) (inputs : gmap string tensor) :
  file_read file = Ok payload →
  Image_open payload = Ok opened →
  Image_convert opened "RGB" = Ok img →
  processor_call (default DEFAULT_TASK task_field) img "pt" = Ok inputs →
  inputs !! "input_ids" = None ∨ inputs !! "pixel_values" = None →
  ∃ log,
    caption file task_field []
    = (log, Raise (Uncaught (PyExn "KeyError"
                               (match inputs !! "input_ids" with
                                | Some _ => "pixel_values"
                                | None => "input_ids"
                                end))))
    ∧ length (visited_keys log) = size inputs
    ∧ generate_calls log = []
    ∧ ∀ c, c ∈ log →
        match c with
        | CallGenerate _ | CallBatchDecode _ _ | CallPostProcess _ _ _ => False
        | _ => True
        end.
Proof.
  intros Hread Hopen Hconv Hproc Hmiss.
  unfold caption, read_image.
  unfold mbind, M_bind, bind, try_except, uncaught, as_exception, invoke, mret, raise, ret.
  rewrite Hread, Hopen, Hconv, Hproc, cast_loop_bundle. unfold getitem.
  rewrite !lookup_fmap.
  assert (∀ l : list call,
            l = [CallRead file; CallImageOpen payload; CallConvert opened "RGB";
                 CallProcessor (default DEFAULT_TASK task_field) img "pt"]
                ++ (visit <$> map_to_list inputs) →
            length (visited_keys l) = size inputs
            ∧ generate_calls l = []
            ∧ ∀ c, c ∈ l →
                match c with
                | CallGenerate _ | CallBatchDecode _ _ | CallPostProcess _ _ _ => False
                | _ => True
                end) as Hlog.
  { intros l ->. split; [|split].
    - unfold visited_keys. rewrite omap_app. cbn.
      fold (visited_keys (visit <$> map_to_list inputs)).
      by rewrite visited_keys_visit, length_fmap, length_map_to_list.
    - by rewrite generate_calls_app, generate_calls_visits.
    - intros c Hc. apply elem_of_app in Hc as [Hc | Hc].
      + repeat (apply elem_of_cons in Hc as [-> | Hc]; [done|]).
        by apply elem_of_nil in Hc.
      + apply list_elem_of_fmap in Hc as [[k v] [-> _]]. done. }
  destruct (inputs !! "input_ids") as [ids|] eqn:Hids; cbn.
  - destruct Hmiss as [Hmiss | Hmiss]; [discriminate|]. rewrite Hmiss. cbn.
    unfold raise. eexists. split; [reflexivity|]. by apply Hlog.
  - unfold raise. eexists. split; [reflexivity|]. by apply Hlog.
Qed.
(** X5.  The request ends in an [HTTPException] exactly when reading the
    upload raises an instance of [Exception], or opening it or converting it
    to RGB raises; the status is then 400 and the detail the message of that
    exception behind the fixed prefix.  A failed read of the upload is thus
    reported as an invalid image too; a read that ends in an exception
    outside [Exception], as when the request is cancelled, is not, and
    neither is any failure after decoding. *)
Theorem caption_client_error_iff
    (file : upload) (task_field : option string) (status : Z) (detail : string) :
  (caption file task_field []).2 = Raise (HTTPException status detail)
  ↔ status = 400
    ∧ ∃ ex,
        detail = "Invalid image: " +:+ exn_msg ex
        ∧ (file_read file = Raise (AnException ex)
           ∨ ∃ payload,
               file_read file = Ok payload
               ∧ (Image_open payload = Raise ex
                  ∨ ∃ opened,
                      Image_open payload = Ok opened
                      ∧ Image_convert opened "RGB" = Raise ex)).
Proof.
  split.
  - service_cases; cbn [snd]; intros [= <- <-] || (intros Hres; discriminate Hres).
    all: split; [done|]; exists e; split; [done|].
    + right. exists payload. split; [done|]. right. by exists opened.
    + right. exists payload. split; [done|]. by left.
    + by left.
  - intros [-> (ex & -> & Hfail)].
    unfold caption, read_image.
    unfold mbind, M_bind, bind, try_except, as_exception, invoke, raise.
    destruct Hfail as [Hread | (payload & Hread & [Hopen | (opened & Hopen & Hconv)])];
      rewrite Hread; [done|rewrite Hopen; done|rewrite Hopen, Hconv; done].
Qed.

(** X6.  When every step succeeds (the upload is read, opened and converted,
    the processor returns a bundle with both required arrays, the model
    generates, decoding returns at least one text and the parser accepts
    it), the request returns the response, having made exactly these calls in
    this order: read, open, convert, processor, one [.to] per array of the
    bundle, generate, decode, parse. *)
Theorem caption_succeeds
    (file : upload) (task_field : option string) (payload : list byte)
    (opened img : image) (inputs : gmap string tensor) (ids px generated : tensor)
    (text : string) (rest : list string) (result : parsed) :
  let task := default DEFAULT_TASK task_field in
  file_read file = Ok payload →
  Image_open payload = Ok opened →
  Image_convert opened "RGB" = Ok img →
  processor_call task img "pt" = Ok inputs →
  inputs !! "input_ids" = Some ids →
  inputs !! "pixel_values" = Some px →
  generate model (generate_kwargs (align ids) (align px)) = Ok generated →
  batch_decode generated false = Ok (text :: rest) →
  post_process_generation text task (Image_size img) = Ok result →
  caption file task_field []
  = ([CallRead file; CallImageOpen payload; CallConvert opened "RGB";
      CallProcessor task img "pt"]
     ++ (visit <$> map_to_list inputs)
     ++ [CallGenerate (generate_kwargs (align ids) (align px));
         CallBatchDecode generated false;
         CallPostProcess text task (Image_size img)],
     Ok (Response MODEL_ID task result)).
Proof.
  intros task Hread Hopen Hconv Hproc Hids Hpx Hgen Hdec Hpost. subst task.
  unfold caption, read_image.
  unfold mbind, M_bind, bind, try_except, uncaught, as_exception, invoke, mret, raise, ret.
  rewrite Hread, Hopen, Hconv, Hproc, cast_loop_bundle. unfold getitem.
  rewrite !lookup_fmap, Hids, Hpx. cbn [fmap option_fmap option_map].
  unfold ret. unfold generate_kwargs in Hgen. rewrite Hgen, Hdec. cbn [first_item].
  unfold ret. rewrite Hpost. by rewrite <- !app_assoc.
Qed.

(** X7.  A failure that is not a client error is always the exception of
    the first step that failed, unchanged: the one that ended the read of the
    upload when it is no instance of [Exception], the processor's, a
    [KeyError] for the first missing array, the model's, the decoder's, an
    [IndexError] when decoding returned no text, or the parser's.  In every
    case but the first, decoding the upload had succeeded. *)
Theorem caption_server_error_cases
    (file : upload) (task_field : option string) (err : pyexn) :
  (caption file task_field []).2 = Raise (Uncaught err) →
  let task := default DEFAULT_TASK task_field in
  file_read file = Raise (NotException err)
  ∨ ∃ payload opened img,
    file_read file = Ok payload
    ∧ Image_open payload = Ok opened
    ∧ Image_convert opened "RGB" = Ok img
    ∧ match processor_call task img "pt" with
      | Raise e' => err = e'
      | Ok inputs =>
          match inputs !! "input_ids", inputs !! "pixel_values" with
          | None, _ => err = PyExn "KeyError" "input_ids"
          | Some _, None => err = PyExn "KeyError" "pixel_values"
          | Some ids, Some px =>
              match generate model (generate_kwargs (align ids) (align px)) with
              | Raise e' => err = e'
              | Ok generated =>
                  match batch_decode generated false with
                  | Raise e' => err = e'
                  | Ok [] => err = PyExn "IndexError" "list index out of range"
                  | Ok (text :: _) =>
                      post_process_generation text task (Image_size img) = Raise err
                  end
              end
          end
      end.
Proof.
  service_cases; cbn [snd]; intros Hres; try discriminate Hres;
    injection Hres as <-; [right..|by left]; exists payload, opened, img;
    (split; [done|]); (split; [done|]); (split; [done|]); rewrite Hproc; try done.
  all: rewrite lookup_fmap in Hids.
  all: destruct (inputs !! "input_ids") as [ids|]; try discriminate Hids; try done.
  all: injection Hids as <-.
  all: rewrite lookup_fmap in Hpx.
  all: destruct (inputs !! "pixel_values") as [px|]; try discriminate Hpx; try done.
  all: injection Hpx as <-.
  all: unfold generate_kwargs; rewrite Hgen; try done.
  all: by rewrite Hdec.
Qed.

(** X8.  In any request the processor and the parser are given the same task
    string, the one of the request; the parser is called after the
    processor, and the size it gets is that of the very image the processor
    got; the processor is always asked for ["pt"] tensors. *)
Theorem processor_and_parser_agree
    (file : upload) (task_field : option string) (log : list call)
    (res : res failure response) (n m : nat)
    (text return_tensors raw_text task : string) (images : image) (size : Z * Z) :
  caption file task_field [] = (log, res) →
  log !! n = Some (CallProcessor text images return_tensors) →
  log !! m = Some (CallPostProcess raw_text task size) →
  text = default DEFAULT_TASK task_field
  ∧ task = text
  ∧ return_tensors = "pt"
  ∧ size = Image_size images
  ∧ (n < m)%nat.
Proof.
  intros Hrun Hn Hm. pose proof Hn as Hn'. pose proof Hm as Hm'.
  apply list_elem_of_lookup_2 in Hn'. apply list_elem_of_lookup_2 in Hm'.
  revert Hrun Hn Hm Hn' Hm'.
  service_cases; intros [= <- <-] Hn Hm Hn' Hm'; service_member Hm'.
  all: service_member Hn'.
  all: injection Hn' as -> -> ->; injection Hm' as -> -> ->.
  all: do 4 (split; [done|]).
  all: destruct n as [|[|[|[|n]]]]; try discriminate Hn.
  all: first
    [ destruct m as [|[|[|[|m]]]]; try discriminate Hm; lia
    | exfalso; cbn in Hn; apply list_elem_of_lookup_2 in Hn;
      apply elem_of_app in Hn as [Hn | Hn];
      [ apply list_elem_of_fmap in Hn as [[? ?] [Hn _]]; discriminate Hn
      | repeat (apply elem_of_cons in Hn as [Hn | Hn]; [discriminate Hn|]);
        by apply elem_of_nil in Hn ] ].
Qed.
End Service.

(** * Further properties of the review tool *)

Section Tool.
Context `{Host}.

Lemma ensure_keys_raw (item : record) :
  dict_get (ensure_keys item) "raw_caption"
  = Some (dict_get_default item "raw_caption" (JStr "")).
Proof.
  unfold ensure_keys, dict_get_default. rewrite !dict_get_setdefault. cbn.
  by destruct (dict_get item "raw_caption").
Qed.

Lemma ensure_keys_final (item : record) :
  dict_get (ensure_keys item) "final_caption"
  = Some (match dict_get item "final_caption" with
          | Some v => v
          | None => dict_get_default item "raw_caption" (JStr "")
          end).
Proof.
  unfold ensure_keys, dict_get_default. rewrite !dict_get_setdefault. cbn.
  destruct (dict_get item "final_caption"); [done|].
  by destruct (dict_get item "raw_caption").
Qed.

Lemma has_caption_keys_spec (rec : record) :
  has_caption_keys rec = true
  ↔ is_Some (dict_get rec "raw_caption") ∧ is_Some (dict_get rec "final_caption").
Proof.
  unfold has_caption_keys. rewrite andb_true_iff, !bool_decide_eq_true. done.
Qed.

Lemma ensure_keys_has_keys (item : record) : has_caption_keys (ensure_keys item) = true.
Proof.
  apply has_caption_keys_spec. rewrite ensure_keys_raw, ensure_keys_final. by split.
Qed.

Lemma ensure_keys_loaded (rec : record) :
  has_caption_keys rec = true → ensure_keys rec = rec.
Proof.
  intros [[raw Hraw] [final Hfinal]]%has_caption_keys_spec.
  unfold ensure_keys, dict_setdefault. rewrite Hraw, Hfinal. done.
Qed.

Lemma ensure_all_objects (data : list record) :
  ensure_all (JObj <$> data) = Ok (ensure_keys <$> data).
Proof. induction data as [|rec rest IH]; [done|]. cbn. by rewrite IH. Qed.

Lemma ensure_all_inv (items : list json) (data : list record) :
  ensure_all items = Ok data →
  ∃ fields, items = JObj <$> fields ∧ data = ensure_keys <$> fields.
Proof.
  revert data. induction items as [|item rest IH]; intros data Hload; cbn in Hload.
  - injection Hload as <-. by exists [].
  - destruct item as [| | | | | |item]; try discriminate Hload.
    destruct (ensure_all rest) as [done_|e]; [|discriminate Hload].
    injection Hload as <-. destruct (IH done_ eq_refl) as (fields & -> & ->).
    by exists (item :: fields).
Qed.

Lemma ensure_all_raises (items : list json) (e : pyexn) :
  ensure_all items = Raise e →
  exn_class e = "AttributeError" ∧ ∃ item, item ∈ items ∧ ∀ fields, item ≠ JObj fields.
Proof.
  induction items as [|item rest IH]; intros Hload; cbn in Hload; [discriminate|].
  destruct item as [| | | | | |item];
    try (injection Hload as <-; split; [done|]; eexists; split;
         [apply list_elem_of_here | intros fields; discriminate]).
  destruct (ensure_all rest) as [done_|e'] eqn:Hrest; [discriminate Hload|].
  injection Hload as ->. destruct (IH eq_refl) as [Hclass (bad & Hbad & Hnot)].
  split; [done|]. exists bad. split; [by apply list_elem_of_further | done].
Qed.

(** X9.  After a successful load of an array, there is one record per item,
    every record has a [raw_caption], that of the file or [""], and a
    [final_caption], that of the file or else the record's [raw_caption]. *)
Theorem load_captions_fills_caption_keys
    (disk : gmap string file) (json_path : string) (items : list json)
    (data : list record) :
  disk !! json_path = Some (JsonText (JArr items)) →
  load_captions disk json_path = Ok data →
  length data = length items
  ∧ ∀ i rec, data !! i = Some rec →
      ∃ item,
        items !! i = Some (JObj item)
        ∧ dict_get rec "raw_caption"
          = Some (dict_get_default item "raw_caption" (JStr ""))
        ∧ dict_get rec "final_caption"
          = Some (match dict_get item "final_caption" with
                  | Some v => v
                  | None => dict_get_default item "raw_caption" (JStr "")
                  end).
Proof.
  intros Hfile. unfold load_captions. rewrite Hfile.
  intros (fields & -> & ->)%ensure_all_inv. split; [by rewrite !length_fmap|].
  intros i rec Hrec. rewrite list_lookup_fmap in Hrec.
  destruct (fields !! i) as [item|] eqn:Hitem; [|discriminate].
  injection Hrec as <-. exists item. rewrite list_lookup_fmap, Hitem.
  split; [done|]. split; [apply ensure_keys_raw | apply ensure_keys_final].
Qed.

(** X10.  Loading an array succeeds exactly when every item is an object;
    otherwise it raises [AttributeError], and a path with no file raises
    [FileNotFoundError]. *)
Theorem load_captions_needs_objects
    (disk : gmap string file) (json_path : string) (items : list json) :
  disk !! json_path = Some (JsonText (JArr items)) →
  match load_captions disk json_path with
  | Ok data => ∀ item, item ∈ items → ∃ fields, item = JObj fields
  | Raise e =>
      exn_class e = "AttributeError"
      ∧ ∃ item, item ∈ items ∧ ∀ fields, item ≠ JObj fields
  end
  ∧ ∀ other, disk !! other = None →
      ∃ e, load_captions disk other = Raise e ∧ exn_class e = "FileNotFoundError".
Proof.
  intros Hfile. split.
  - unfold load_captions. rewrite Hfile.
    destruct (ensure_all items) as [data|e] eqn:Hload.
    + apply ensure_all_inv in Hload as (fields & -> & _).
      intros item [f [-> _]]%list_elem_of_fmap. by exists f.
    + by apply ensure_all_raises.
  - intros other Hnone. unfold load_captions. rewrite Hnone. by eexists.
Qed.

Lemma load_after_save (data : list record) json_path csv_path disk :
  json_path ≠ csv_path →
  data_encodable data = true →
  load_captions (save_files data json_path csv_path disk).1 json_path
  = Ok (ensure_keys <$> data).
Proof.
  intros Hne Hdata. rewrite (save_files_written _ _ _ _ Hdata). unfold load_captions.
  cbn [fst]. rewrite lookup_insert_ne by done. rewrite lookup_insert_eq.
  apply ensure_all_objects.
Qed.

Lemma save_files_frame (data : list record) json_path csv_path disk path :
  path ≠ json_path → path ≠ csv_path →
  (save_files data json_path csv_path disk).1 !! path = disk !! path.
Proof.
  intros Hjson Hcsv. destruct (data_encodable data) eqn:Hdata.
  - rewrite (save_files_written _ _ _ _ Hdata). cbn [fst]. by rewrite !lookup_insert_ne.
  - rewrite (save_files_broken _ _ _ _ Hdata). cbn [fst]. by rewrite lookup_insert_ne.
Qed.

Lemma ensure_keys_all_loaded (data : list record) :
  Forall (λ rec, has_caption_keys rec = true) data → ensure_keys <$> data = data.
Proof.
  induction 1 as [|rec rest Hrec _ IH]; [done|].
  rewrite fmap_cons, ensure_keys_loaded by done. by f_equal.
Qed.

(** The two ways [nav] ends, with everything they return. *)
Lemma nav_show_view idx w :
  DATA w ≠ [] →
  ∃ rec,
    DATA w !! Z.to_nat (clamp_index idx (len (DATA w))) = Some rec
    ∧ nav_show idx w
      = (w, match (display_path (dict_get_default rec "image" (JStr "")) w).2 with
            | Ok shown =>
                Ok (View shown (dict_get_default rec "final_caption" (JStr ""))
                      ("**" +:+ pretty (clamp_index idx (len (DATA w)) + 1)
                       +:+ " / " +:+ pretty (len (DATA w)) +:+ "**")
                      ("Saved " +:+ time_strftime "%H:%M:%S")
                      (clamp_index idx (len (DATA w))) true true true true true)
            | Raise e => Raise e
            end).
Proof.
  intros Hne. destruct (get_record_run idx w Hne) as (rec & Hrec & Hget).
  exists rec. split; [done|]. unfold nav_show, mbind, W_bind. rewrite Hget.
  cbn [rec_get mret W_ret].
  pose proof (readonly_display_path (dict_get_default rec "image" (JStr "")) w) as Hro.
  destruct (display_path _ w) as [w1 [shown|e]]; cbn in Hro; subst w1; cbn [snd]; [|done].
  unfold progress_text, mbind, W_bind, read, mret, W_ret.
  pose proof (len_pos _ Hne). destruct (Z.eqb_spec (len (DATA w)) 0); [lia | done].
Qed.

Lemma nav_end_view idx w :
  DATA w ≠ [] →
  ∃ rec,
    DATA w !! Z.to_nat (clamp_index idx (len (DATA w))) = Some rec
    ∧ nav_end_branch idx w
      = (w, match (display_path (dict_get_default rec "image" JNull) w).2 with
            | Ok shown =>
                Ok (View shown (dict_get_default rec "final_caption" (JStr ""))
                      ("**" +:+ pretty (clamp_index idx (len (DATA w)) + 1)
                       +:+ " / " +:+ pretty (len (DATA w)) +:+ "**")
                      "Session ended. Close this tab if you're done."
                      (clamp_index idx (len (DATA w))) false false false false false)
            | Raise e => Raise e
            end).
Proof.
  intros Hne. destruct (get_record_run idx w Hne) as (rec & Hrec & Hget).
  exists rec. split; [done|]. unfold nav_end_branch, mbind, W_bind. rewrite Hget.
  cbn [rec_get mret W_ret].
  pose proof (readonly_display_path (dict_get_default rec "image" JNull) w) as Hro.
  destruct (display_path _ w) as [w1 [shown|e]]; cbn in Hro; subst w1; cbn [snd]; [|done].
  unfold progress_text, mbind, W_bind, read, mret, W_ret.
  pose proof (len_pos _ Hne). destruct (Z.eqb_spec (len (DATA w)) 0); [lia | done].
Qed.

(** [nav] on a non-empty [DATA], whole: where it goes and what it returns. *)
Lemma nav_outcome direction caption_text idx w :
  DATA w ≠ [] →
  let n := len (DATA w) in
  let c := clamp_index idx n in
  let t := nav_target direction c n in
  let ended := String.eqb direction "end" in
  ∃ rec0 rec',
    DATA w !! Z.to_nat c = Some rec0
    ∧ 0 ≤ c ≤ n - 1
    ∧ 0 ≤ t ≤ n - 1
    ∧ (nav direction caption_text idx w).1 = after_save w (Z.to_nat c) rec0 caption_text
    ∧ DATA (after_save w (Z.to_nat c) rec0 caption_text) !! Z.to_nat t = Some rec'
    ∧ (nav direction caption_text idx w).2
      = if data_encodable (DATA (after_save w (Z.to_nat c) rec0 caption_text)) then
          match (display_path
                   (dict_get_default rec' "image" (if ended then JNull else JStr ""))
                   (after_save w (Z.to_nat c) rec0 caption_text)).2 with
          | Ok shown =>
              Ok (View shown (dict_get_default rec' "final_caption" (JStr ""))
                    ("**" +:+ pretty (t + 1) +:+ " / " +:+ pretty n +:+ "**")
                    (if ended then "Session ended. Close this tab if you're done."
                     else "Saved " +:+ time_strftime "%H:%M:%S")
                    t (negb ended) (negb ended) (negb ended) (negb ended) (negb ended))
          | Raise e => Raise e
          end
        else Raise (PyExn "UnicodeEncodeError" "surrogates not allowed").
Proof.
  intros Hne n c t ended.
  destruct (nav_run direction caption_text idx w Hne) as (rec0 & Hrec0 & Hlen & Hnav).
  fold n in Hrec0, Hlen, Hnav. fold c in Hrec0, Hlen, Hnav.
  set (w' := after_save w (Z.to_nat c) rec0 caption_text) in *.
  assert (DATA w' ≠ []) as Hne' by (by apply after_save_nonempty).
  pose proof (len_pos _ Hne) as Hn. fold n in Hn.
  pose proof (clamp_index_bounds idx n Hn) as Hc. fold c in Hc.
  assert (∀ i, 0 ≤ i ≤ n - 1 → clamp_index i n = i) as Hfix.
  { intros i Hi. unfold clamp_index. destruct (Z.eqb_spec n 0); lia. }
  assert (0 ≤ t ≤ n - 1) as Ht.
  { unfold t, nav_target. repeat case_match; lia. }
  assert (∀ i, clamp_index i n = t → direction ≠ "end" →
            ∃ rec', DATA w' !! Z.to_nat t = Some rec'
              ∧ (nav_show i w').2
                = match (display_path (dict_get_default rec' "image" (JStr "")) w').2 with
                  | Ok shown =>
                      Ok (View shown (dict_get_default rec' "final_caption" (JStr ""))
                            ("**" +:+ pretty (t + 1) +:+ " / " +:+ pretty n +:+ "**")
                            ("Saved " +:+ time_strftime "%H:%M:%S")
                            t true true true true true)
                  | Raise e => Raise e
                  end
              ∧ (nav_show i w').1 = w') as Hshow.
  { intros i Hi _. destruct (nav_show_view i w' Hne') as (rec' & Hrec' & ->).
    rewrite Hlen, Hi in Hrec' |- *. by exists rec'. }
  exists rec0. rewrite Hnav.
  change (after_save w (Z.to_nat c) rec0 caption_text) with w'.
  destruct (data_encodable (DATA w')) eqn:Hdata; cycle 1.
  { destruct (lookup_lt_is_Some_2 (DATA w') (Z.to_nat t)) as [rec' Hrec'].
    { unfold len in *. lia. }
    by exists rec'. }
  assert (∀ i, clamp_index i n = t → direction ≠ "end" →
            ∃ rec', DATA w !! Z.to_nat c = Some rec0 ∧ 0 ≤ c ≤ n - 1 ∧ 0 ≤ t ≤ n - 1
              ∧ (nav_show i w').1 = w'
              ∧ DATA w' !! Z.to_nat t = Some rec'
              ∧ (nav_show i w').2
                = match (display_path
                           (dict_get_default rec' "image" (if ended then JNull else JStr ""))
                           w').2 with
                  | Ok shown =>
                      Ok (View shown (dict_get_default rec' "final_caption" (JStr ""))
                            ("**" +:+ pretty (t + 1) +:+ " / " +:+ pretty n +:+ "**")
                            (if ended then "Session ended. Close this tab if you're done."
                             else "Saved " +:+ time_strftime "%H:%M:%S")
                            t (negb ended) (negb ended) (negb ended) (negb ended)
                            (negb ended))
                  | Raise e => Raise e
                  end) as Hgo.
  { intros i Hi Hend. destruct (Hshow i Hi Hend) as (rec' & Hrec' & Hres & Hw).
    exists rec'. subst ended. rewrite (proj2 (String.eqb_neq _ _) Hend). cbn [negb].
    do 5 (split; [done|]). done. }
  subst t. unfold nav_target in *.
  destruct (String.eqb_spec direction "next") as [-> | Hnext].
  { apply Hgo; [|done]. unfold clamp_index. destruct (Z.eqb_spec n 0); lia. }
  destruct (String.eqb_spec direction "prev") as [-> | Hprev].
  { apply Hgo; [|done]. unfold clamp_index. destruct (Z.eqb_spec n 0); lia. }
  destruct (String.eqb_spec direction "first") as [-> | Hfirst].
  { apply Hgo; [|done]. apply Hfix. lia. }
  destruct (String.eqb_spec direction "last") as [-> | Hlast].
  { apply Hgo; [|done]. apply Hfix. lia. }
  destruct (String.eqb_spec direction "end") as [-> | Hend].
  { destruct (nav_end_view c w' Hne') as (rec' & Hrec' & ->).
    rewrite Hlen, (Hfix c Hc) in Hrec' |- *. exists rec'. subst ended.
    do 5 (split; [done|]). done. }
  apply Hgo; [|done]. by apply Hfix.
Qed.
Lemma nav_on_empty direction caption_text idx w :
  DATA w = [] →
  nav direction caption_text idx w
  = (w, Ok (View JNull (JStr "") "No records" "Nothing to save" idx
              false false false false false)).
Proof.
  intros Hnil. unfold nav, mbind, W_bind, read.
  by rewrite bool_decide_eq_true_2.
Qed.

Lemma has_caption_keys_set (rec : record) v :
  has_caption_keys rec = true →
  has_caption_keys (dict_set rec "final_caption" v) = true.
Proof.
  rewrite !has_caption_keys_spec. intros [Hraw _].
  rewrite dict_get_set_eq. rewrite dict_get_set_ne; [|discriminate].
  split; [done | by eexists].
Qed.

Lemma after_save_loaded w pos rec caption_text :
  DATA w !! pos = Some rec →
  Forall (λ rec, has_caption_keys rec = true) (DATA w) →
  Forall (λ rec, has_caption_keys rec = true) (DATA (after_save w pos rec caption_text)).
Proof.
  intros Hrec Hall. cbn. apply Forall_insert; [done|].
  apply has_caption_keys_set. rewrite Forall_lookup in Hall. by apply (Hall pos).
Qed.

(** X12.  Nothing typed is lost by a restart, as long as it could be
    written: on loaded records and with two different paths, the records
    [nav] leaves in memory still all have both caption keys, and when their
    strings can all be encoded, running [main] again on the disk [nav]
    leaves behind gives back exactly these records.  When one cannot, [main]
    fails on that disk with [JSONDecodeError]: the caption file is lost. *)
Theorem restart_after_nav
    (direction caption_text : string) (idx : Z) (w : world) :
  DATA w ≠ [] →
  JSON_PATH w ≠ CSV_PATH w →
  Forall (λ rec, has_caption_keys rec = true) (DATA w) →
  let w' := (nav direction caption_text idx w).1 in
  Forall (λ rec, has_caption_keys rec = true) (DATA w')
  ∧ (data_encodable (DATA w') = true →
     main (JSON_PATH w') (CSV_PATH w') (files w')
     = Ok (World (DATA w') (JSON_PATH w') (CSV_PATH w')
             (os_path_dirname (JSON_PATH w')) (files w')))
  ∧ (data_encodable (DATA w') = false →
     ∃ e, main (JSON_PATH w') (CSV_PATH w') (files w') = Raise e
          ∧ exn_class e = "JSONDecodeError").
Proof.
  intros Hne Hpaths Hall w'.
  destruct (nav_world direction caption_text idx w Hne) as (rec & Hrec & Hw).
  subst w'. rewrite Hw.
  pose proof (after_save_loaded w _ rec caption_text Hrec Hall) as Hall'.
  split; [done|]. unfold main. cbn [after_save JSON_PATH CSV_PATH files DATA] in *.
  split; intros Hdata.
  - by rewrite load_after_save, ensure_keys_all_loaded.
  - rewrite (save_files_broken _ _ _ _ Hdata). cbn [fst].
    unfold load_captions. rewrite lookup_insert_eq. by eexists.
Qed.

(** X13.  When the two paths given to the tool are the same, the caption
    file does not survive a [nav] on a non-empty [DATA]: the CSV is written
    over the JSON when the records can be encoded, the JSON is left broken
    off when they cannot, and either way the file can no longer be loaded. *)
Theorem same_path_loses_json
    (direction caption_text : string) (idx : Z) (w : world) :
  DATA w ≠ [] →
  JSON_PATH w = CSV_PATH w →
  let w' := (nav direction caption_text idx w).1 in
  (data_encodable (DATA w') = true →
   ∃ rows, files w' !! JSON_PATH w' = Some (CsvText rows))
  ∧ (data_encodable (DATA w') = false → files w' !! JSON_PATH w' = Some BrokenJson)
  ∧ ∃ e, main (JSON_PATH w') (CSV_PATH w') (files w') = Raise e
         ∧ exn_class e = "JSONDecodeError".
Proof.
  intros Hne Hpaths w'.
  destruct (nav_world direction caption_text idx w Hne) as (rec & Hrec & Hw).
  subst w'. rewrite Hw. cbn [after_save JSON_PATH CSV_PATH files DATA].
  unfold main, load_captions. destruct (data_encodable _) eqn:Hdata.
  - rewrite (save_files_written _ _ _ _ Hdata). cbn [fst].
    rewrite Hpaths, lookup_insert_eq. split; [by eexists|]. split; [done | by eexists].
  - rewrite (save_files_broken _ _ _ _ Hdata). cbn [fst].
    rewrite lookup_insert_eq. split; [done|]. split; [done | by eexists].
Qed.

(** X14.  [nav] never changes the three path globals, and on disk it touches
    no file but the two it is configured with; on an empty [DATA] it changes
    nothing at all, writes no file, and returns the index it was given with
    every button off. *)
Theorem nav_touches_only_its_files
    (direction caption_text : string) (idx : Z) (w : world) :
  let w' := (nav direction caption_text idx w).1 in
  JSON_PATH w' = JSON_PATH w
  ∧ CSV_PATH w' = CSV_PATH w
  ∧ DATA_DIR w' = DATA_DIR w
  ∧ (∀ path, path ≠ JSON_PATH w → path ≠ CSV_PATH w →
       files w' !! path = files w !! path)
  ∧ (DATA w = [] →
     nav direction caption_text idx w
     = (w, Ok (View JNull (JStr "") "No records" "Nothing to save" idx
                 false false false false false))).
Proof.
  intros w'. destruct (decide (DATA w = [])) as [Hnil | Hne].
  - subst w'. rewrite (nav_on_empty _ _ _ _ Hnil). by repeat split.
  - destruct (nav_world direction caption_text idx w Hne) as (rec & Hrec & Hw).
    subst w'. rewrite Hw. cbn [after_save JSON_PATH CSV_PATH DATA_DIR files].
    repeat split; try done.
    intros path Hjson Hcsv. by apply save_files_frame.
Qed.

Lemma after_save_lookup w pos rec caption_text i rec' :
  DATA w !! pos = Some rec →
  DATA (after_save w pos rec caption_text) !! i = Some rec' →
  ∃ before,
    DATA w !! i = Some before
    ∧ (∀ key, key ≠ "final_caption" → dict_get rec' key = dict_get before key)
    ∧ (i = pos → rec' = dict_set rec "final_caption" (JStr (str_strip caption_text))).
Proof.
  intros Hrec Hafter. cbn in Hafter. destruct (decide (i = pos)) as [-> | Hi].
  - rewrite list_lookup_insert_eq in Hafter by (by eapply lookup_lt_Some).
    injection Hafter as <-. exists rec. split; [done|]. split; [|done].
    intros key Hkey. by rewrite dict_get_set_ne.
  - rewrite list_lookup_insert_ne in Hafter by done. exists rec'. by repeat split.
Qed.

(** X15.  When [nav] returns on a non-empty [DATA], the index it returns is
    the one after the clamped incoming index for ["next"], the one before for
    ["prev"], 0 for ["first"], the last for ["last"] and the clamped index
    itself otherwise, never outside the records; the caption it returns is
    the stored [final_caption] of the record there, which is the stripped
    text just typed whenever the view stays where it was; the progress reads
    position / count; and every button is on, unless the direction was
    ["end"], which turns them all off. *)
Theorem nav_shows_target_record
    (direction caption_text : string) (idx : Z) (w : world) (v : view) :
  DATA w ≠ [] →
  (nav direction caption_text idx w).2 = Ok v →
  let n := len (DATA w) in
  let c := clamp_index idx n in
  let t := nav_target direction c n in
  let w' := (nav direction caption_text idx w).1 in
  let ended := String.eqb direction "end" in
  0 ≤ t ≤ n - 1
  ∧ v_idx v = t
  ∧ (∃ rec, DATA w' !! Z.to_nat t = Some rec
       ∧ v_caption v = dict_get_default rec "final_caption" (JStr ""))
  ∧ (t = c → v_caption v = JStr (str_strip caption_text))
  ∧ v_progress v = "**" +:+ pretty (t + 1) +:+ " / " +:+ pretty n +:+ "**"
  ∧ v_status v = (if ended then "Session ended. Close this tab if you're done."
                  else "Saved " +:+ time_strftime "%H:%M:%S")
  ∧ v_first v = negb ended ∧ v_prev v = negb ended ∧ v_next v = negb ended
  ∧ v_last v = negb ended ∧ v_end v = negb ended.
Proof.
  intros Hne Hres n c t w' ended.
  destruct (nav_outcome direction caption_text idx w Hne)
    as (rec0 & rec' & Hrec0 & Hc & Ht & Hw & Hrec' & Hout).
  fold n c t ended in Hrec0, Hc, Ht, Hw, Hrec', Hout.
  subst w'. rewrite Hw. rewrite Hout in Hres.
  destruct (data_encodable _); [|discriminate Hres].
  destruct (display_path _ _).2 as [shown|e]; [|discriminate Hres].
  injection Hres as <-. cbn.
  split; [done|]. split; [done|]. split; [by exists rec'|]. split; [|done].
  intros Heq. rewrite Heq in Hrec'.
  destruct (after_save_lookup _ _ _ _ _ _ Hrec0 Hrec') as (_ & _ & _ & Hsame).
  rewrite (Hsame eq_refl). unfold dict_get_default. by rewrite dict_get_set_eq.
Qed.


Lemma nav_index direction caption_text idx w v :
  DATA w ≠ [] →
  (nav direction caption_text idx w).2 = Ok v →
  v_idx v = nav_target direction (clamp_index idx (len (DATA w))) (len (DATA w))
  ∧ 0 ≤ v_idx v ≤ len (DATA w) - 1
  ∧ len (DATA (nav direction caption_text idx w).1) = len (DATA w)
  ∧ DATA (nav direction caption_text idx w).1 ≠ [].
Proof.
  intros Hne Hres.
  destruct (nav_outcome direction caption_text idx w Hne)
    as (rec0 & rec' & Hrec0 & Hc & Ht & Hw & Hrec' & Hout).
  rewrite Hout in Hres. destruct (data_encodable _) eqn:Hdata; [|discriminate Hres].
  destruct (display_path _ _).2 as [shown|e]; [|discriminate Hres].
  injection Hres as <-. cbn [v_idx]. rewrite Hw.
  split; [done|]. split; [done|]. split; [apply len_insert|].
  by apply after_save_nonempty.
Qed.

Lemma nav_returns_saved direction caption_text idx w v :
  DATA w ≠ [] →
  (nav direction caption_text idx w).2 = Ok v →
  data_encodable (DATA (nav direction caption_text idx w).1) = true.
Proof.
  intros Hne Hres.
  destruct (nav_outcome direction caption_text idx w Hne)
    as (rec0 & rec' & _ & _ & _ & Hw & _ & Hout).
  rewrite Hout in Hres. rewrite Hw. by destruct (data_encodable _).
Qed.

(** X17.  Away from the ends, ["prev"] undoes ["next"] and ["next"] undoes
    ["prev"]: whatever is typed in between, the second step comes back to
    the index the first one left. *)
Theorem prev_and_next_are_inverse
    (text1 text2 : string) (idx : Z) (w : world) :
  DATA w ≠ [] →
  0 ≤ idx ≤ len (DATA w) - 1 →
  (idx < len (DATA w) - 1 →
   ∀ w1 v1 v2,
     nav "next" text1 idx w = (w1, Ok v1) →
     (nav "prev" text2 (v_idx v1) w1).2 = Ok v2 →
     v_idx v1 = idx + 1 ∧ v_idx v2 = idx)
  ∧ (0 < idx →
     ∀ w1 v1 v2,
       nav "prev" text1 idx w = (w1, Ok v1) →
       (nav "next" text2 (v_idx v1) w1).2 = Ok v2 →
       v_idx v1 = idx - 1 ∧ v_idx v2 = idx).
Proof.
  intros Hne Hidx.
  assert (clamp_index idx (len (DATA w)) = idx) as Hc.
  { unfold clamp_index. destruct (Z.eqb_spec (len (DATA w)) 0); lia. }
  split; intros Hroom w1 v1 v2 Hfirst Hsecond.
  - destruct (nav_index "next" text1 idx w v1 Hne) as (Hv1 & _ & Hlen & Hne1);
      [by rewrite Hfirst|].
    rewrite Hfirst in Hlen, Hne1. cbn [fst] in Hlen, Hne1.
    rewrite Hc in Hv1. cbn in Hv1.
    destruct (nav_index "prev" text2 (v_idx v1) w1 v2 Hne1 Hsecond) as (Hv2 & _).
    rewrite Hlen in Hv2. rewrite Hv2, Hv1. cbn.
    unfold clamp_index. destruct (Z.eqb_spec (len (DATA w)) 0); lia.
  - destruct (nav_index "prev" text1 idx w v1 Hne) as (Hv1 & _ & Hlen & Hne1);
      [by rewrite Hfirst|].
    rewrite Hfirst in Hlen, Hne1. cbn [fst] in Hlen, Hne1.
    rewrite Hc in Hv1. cbn in Hv1.
    destruct (nav_index "next" text2 (v_idx v1) w1 v2 Hne1 Hsecond) as (Hv2 & _).
    rewrite Hlen in Hv2. rewrite Hv2, Hv1. cbn.
    unfold clamp_index. destruct (Z.eqb_spec (len (DATA w)) 0); lia.
Qed.

Lemma load_first_view idx w :
  DATA w ≠ [] →
  ∃ rec,
    DATA w !! Z.to_nat (clamp_index idx (len (DATA w))) = Some rec
    ∧ load_first idx w
      = (w, match (display_path (dict_get_default rec "image" (JStr "")) w).2 with
            | Ok shown =>
                Ok (View shown (dict_get_default rec "final_caption" (JStr ""))
                      ("**" +:+ pretty (clamp_index idx (len (DATA w)) + 1)
                       +:+ " / " +:+ pretty (len (DATA w)) +:+ "**")
                      "" (clamp_index idx (len (DATA w))) true true true true true)
            | Raise e => Raise e
            end).
Proof.
  intros Hne. destruct (get_record_run idx w Hne) as (rec & Hrec & Hget).
  exists rec. split; [done|]. unfold load_first. unfold mbind at 1, W_bind at 1, read at 1.
  rewrite bool_decide_eq_false_2 by done. unfold mbind, W_bind. rewrite Hget.
  cbn [rec_get mret W_ret].
  pose proof (readonly_display_path (dict_get_default rec "image" (JStr "")) w) as Hro.
  destruct (display_path _ w) as [w1 [shown|e]]; cbn in Hro; subst w1; cbn [snd]; [|done].
  unfold progress_text, mbind, W_bind, read, mret, W_ret.
  pose proof (len_pos _ Hne). destruct (Z.eqb_spec (len (DATA w)) 0); [lia | done].
Qed.

(** X18.  Started on a caption file whose first item is an object, the tool
    first shows record 1 of the count: its [final_caption] if the file had
    one, else its [raw_caption], else the empty string; the status is empty,
    every button is on, and nothing has been written. *)
Theorem first_view_after_main
    (captions csv : string) (disk : gmap string file) (first : record)
    (rest : list json) (w : world) (v : view) :
  disk !! captions = Some (JsonText (JArr (JObj first :: rest))) →
  main captions csv disk = Ok w →
  (load_first 0 w).2 = Ok v →
  v_idx v = 0
  ∧ v_caption v = match dict_get first "final_caption" with
                  | Some final => final
                  | None => dict_get_default first "raw_caption" (JStr "")
                  end
  ∧ v_progress v = "**" +:+ pretty 1 +:+ " / " +:+ pretty (len (JObj first :: rest)) +:+ "**"
  ∧ v_status v = ""
  ∧ (v_first v && v_prev v && v_next v && v_last v && v_end v) = true
  ∧ (load_first 0 w).1 = w
  ∧ files w = disk.
Proof.
  intros Hfile Hmain Hview. unfold main, load_captions in Hmain. rewrite Hfile in Hmain.
  destruct (ensure_all (JObj first :: rest)) as [data|e] eqn:Hload; [|discriminate Hmain].
  injection Hmain as <-.
  apply ensure_all_inv in Hload as (fields & Hitems & ->).
  destruct fields as [|first' fields]; [discriminate Hitems|].
  injection Hitems as <- Hrest.
  set (w := World _ _ _ _ _) in *.
  assert (DATA w ≠ []) as Hne by done.
  assert (len (DATA w) = len (JObj first :: rest)) as Hlen.
  { unfold len. cbn. by rewrite Hrest, !length_fmap. }
  assert (clamp_index 0 (len (DATA w)) = 0) as Hc.
  { pose proof (len_pos _ Hne). unfold clamp_index.
    destruct (Z.eqb_spec (len (DATA w)) 0); lia. }
  destruct (load_first_view 0 w Hne) as (rec & Hrec & Hrun).
  rewrite Hc in Hrec, Hrun. cbn in Hrec. injection Hrec as <-.
  rewrite Hrun in Hview |- *. cbn [fst snd] in *.
  destruct (display_path _ w).2 as [shown|e]; [|discriminate Hview].
  injection Hview as <-.
  cbn [v_idx v_caption v_progress v_status v_first v_prev v_next v_last v_end andb].
  split; [done|]. split; [unfold dict_get_default; by rewrite ensure_keys_final|].
  split; [|done]. rewrite <- Hlen. reflexivity.
Qed.
(** Steps of a page run. *)
Lemma only_captions_changed_refl w : only_captions_changed w w.
Proof.
  split; [|done]. apply Forall2_same_length_lookup. split; [done|].
  intros i before after Hb Ha key _. congruence.
Qed.


Lemma nav_frame direction caption_text idx w :
  only_captions_changed w (nav direction caption_text idx w).1.
Proof.
  destruct (decide (DATA w = [])) as [Hnil | Hne].
  - rewrite (nav_on_empty _ _ _ _ Hnil). apply only_captions_changed_refl.
  - destruct (nav_world direction caption_text idx w Hne) as (rec & Hrec & ->).
    split; [|repeat split; try done].
    + cbn [after_save DATA]. apply Forall2_same_length_lookup.
      split; [by rewrite length_insert|].
      intros i before after Hbefore Hafter key Hkey.
      destruct (decide (i = Z.to_nat (clamp_index idx (len (DATA w))))) as [-> | Hi].
      * rewrite list_lookup_insert_eq in Hafter by (by eapply lookup_lt_Some).
        injection Hafter as <-. rewrite dict_get_set_ne by done. congruence.
      * rewrite list_lookup_insert_ne in Hafter by done. congruence.
    + intros path Hjson Hcsv. cbn [after_save files]. by apply save_files_frame.
Qed.



Lemma on_click_is_nav b caption_text idx :
  on_click b caption_text idx
  = nav (match b with
         | FirstBtn => "first" | PrevBtn => "prev" | NextBtn => "next"
         | LastBtn => "last" | EndBtn => "end"
         end) caption_text idx.
Proof. by destruct b. Qed.


Lemma load_first_result idx w :
  (load_first idx w).1 = w
  ∧ match (load_first idx w).2 with
    | Ok v => (DATA w = [] → v_idx v = idx)
              ∧ (DATA w ≠ [] → v_idx v = clamp_index idx (len (DATA w)))
    | Raise e => exn_class e = "TypeError"
    end.
Proof.
  split; [apply readonly_load_first|].
  destruct (decide (DATA w = [])) as [Hnil | Hne].
  - unfold load_first, mbind, W_bind, read. by rewrite bool_decide_eq_true_2.
  - destruct (load_first_view idx w Hne) as (rec & Hrec & ->). cbn [snd].
    destruct (display_path _ w) as [w1 [shown|e]] eqn:Hd; cbn [snd]; [done|].
    eapply display_path_raises. by rewrite Hd.
Qed.


Lemma save_files_again (data : list record) json_path csv_path disk :
  (save_files data json_path csv_path (save_files data json_path csv_path disk).1).1
  = (save_files data json_path csv_path disk).1.
Proof.
  apply map_eq. intros path. destruct (data_encodable data) eqn:Hdata.
  - rewrite !(save_files_written _ _ _ _ Hdata). cbn [fst].
    rewrite !lookup_insert. by repeat case_decide.
  - rewrite !(save_files_broken _ _ _ _ Hdata). cbn [fst].
    rewrite !lookup_insert. by repeat case_decide.
Qed.

Lemma clicks_sync actions :
  ∀ state_holder w idx,
    actions ≠ [] →
    DATA w ≠ [] →
    (clicks actions state_holder w).2 = Ok idx →
    let w' := (clicks actions state_holder w).1 in
    DATA w' ≠ []
    ∧ data_encodable (DATA w') = true
    ∧ files w'
      = (save_files (DATA w') (JSON_PATH w) (CSV_PATH w) (files w')).1.
Proof.
  induction actions as [|[b caption_text] rest IH]; intros st w idx Hsome Hne Hres;
    [done|].
  cbn [clicks] in *. unfold mbind, W_bind in *. rewrite on_click_is_nav in *.
  set (direction := match b with
                    | FirstBtn => "first" | PrevBtn => "prev" | NextBtn => "next"
                    | LastBtn => "last" | EndBtn => "end"
                    end) in *.
  destruct (nav_world direction caption_text st w Hne) as (rec & Hrec & Hw).
  pose proof (nav_frame direction caption_text st w) as (_ & Hjson & Hcsv & _).
  pose proof (nav_returns_saved direction caption_text st w) as Hsaved.
  destruct (nav direction caption_text st w) as [w1 [shown|e]]; cbn [fst snd] in *;
    [|discriminate Hres].
  specialize (Hsaved shown Hne eq_refl).
  assert (DATA w1 ≠ []) as Hne1 by (rewrite Hw; by apply after_save_nonempty).
  destruct rest as [|next rest].
  - cbn. split; [done|]. split; [done|]. rewrite Hw. cbn [after_save DATA files].
    by rewrite save_files_again.
  - destruct (IH (v_idx shown) w1 idx) as (Hne' & Hdata & Hfiles); [done..|].
    rewrite Hjson, Hcsv in Hfiles. by split.
Qed.

(** X20.  When a page run with at least one press comes to its end on a
    non-empty [DATA], the disk is in step with memory: the JSON path holds
    exactly the records now in [DATA] (when the two paths differ) and the CSV
    path their three columns under the header. *)
Theorem session_leaves_disk_in_step
    (actions : list (button * string)) (w : world) (idx : Z) :
  actions ≠ [] →
  DATA w ≠ [] →
  (session actions w).2 = Ok idx →
  let w' := (session actions w).1 in
  files w' !! CSV_PATH w
  = Some (CsvText ([JStr "image"; JStr "raw_caption"; JStr "final_caption"]
                   :: map csv_cells (DATA w')))
  ∧ (JSON_PATH w ≠ CSV_PATH w →
     files w' !! JSON_PATH w = Some (JsonText (JArr (map JObj (DATA w'))))).
Proof.
  intros Hsome Hne Hres. unfold session, mbind, W_bind in *.
  destruct (load_first_result 0 w) as [Hw _].
  destruct (load_first 0 w) as [w0 [shown|e]]; cbn [fst snd] in *; subst w0;
    [|discriminate Hres].
  destruct (clicks_sync actions (v_idx shown) w idx Hsome Hne Hres) as (_ & Hdata & Hfiles).
  cbn zeta. rewrite Hfiles, (save_files_written _ _ _ _ Hdata). cbn [fst]. split.
  - apply lookup_insert_eq.
  - intros Hpaths. rewrite lookup_insert_ne by done. apply lookup_insert_eq.
Qed.

(** Keys of a dict, in order. *)
Lemma dict_get_None (d : record) key : dict_get d key = None ↔ key ∉ d.*1.
Proof.
  induction d as [|[k v] rest IH]; cbn.
  - split; [intros _ Hin; by apply elem_of_nil in Hin | done].
  - rewrite not_elem_of_cons. destruct (String.eqb_spec k key) as [-> | Hk].
    + split; [discriminate | intros [Hne _]; done].
    + rewrite IH. split; [intros Hout; split; [congruence | done] | by intros [_ Hout]].
Qed.

Lemma dict_set_keys (d : record) key v :
  (dict_set d key v).*1
  = match dict_get d key with Some _ => d.*1 | None => d.*1 ++ [key] end.
Proof.
  induction d as [|[k w] rest IH]; cbn; [done|].
  destruct (String.eqb_spec k key) as [-> | Hk]; cbn; [done|].
  rewrite IH. by destruct (dict_get rest key).
Qed.

Lemma dict_setdefault_keys (d : record) key v :
  (dict_setdefault d key v).*1
  = match dict_get d key with Some _ => d.*1 | None => d.*1 ++ [key] end.
Proof.
  unfold dict_setdefault. destruct (dict_get d key); [done|].
  by rewrite fmap_app.
Qed.

Lemma NoDup_snoc_key (d : record) key :
  dict_get d key = None → NoDup d.*1 → NoDup (d.*1 ++ [key]).
Proof.
  intros Hnone Hnd. apply NoDup_app. split; [done|]. split; [|apply NoDup_singleton].
  intros k Hk ->%list_elem_of_singleton. by apply dict_get_None in Hnone.
Qed.

(** X21.  Records stay proper dicts with a stable layout: loading and [nav]
    keep the keys a record has in their order, append at the end the caption
    keys they add ([raw_caption] and [final_caption] for loading,
    [final_caption] alone for [nav]), and never make a key occur twice. *)
Theorem record_keys_are_stable :
  (∀ item,
     ∃ added,
       (ensure_keys item).*1 = item.*1 ++ added
       ∧ (∀ key, key ∈ added →
            (key = "raw_caption" ∨ key = "final_caption") ∧ dict_get item key = None)
       ∧ (NoDup item.*1 → NoDup (ensure_keys item).*1))
  ∧ (∀ direction caption_text idx w,
       Forall2 (λ before after,
                  (after.*1 = before.*1
                   ∨ dict_get before "final_caption" = None
                     ∧ after.*1 = before.*1 ++ ["final_caption"])
                  ∧ (NoDup before.*1 → NoDup after.*1))
         (DATA w) (DATA (nav direction caption_text idx w).1)).
Proof.
  split.
  - intros item. unfold ensure_keys. rewrite !dict_setdefault_keys, dict_get_setdefault.
    destruct (dict_get item "raw_caption") eqn:Hraw;
      destruct (dict_get item "final_caption") eqn:Hfinal; cbn.
    + exists []. rewrite app_nil_r. split; [done|]. split; [|done].
      intros key Hin. by apply elem_of_nil in Hin.
    + exists ["final_caption"]. split; [done|]. split; [|by apply NoDup_snoc_key].
      intros key ->%list_elem_of_singleton. auto.
    + exists ["raw_caption"]. split; [done|]. split; [|by apply NoDup_snoc_key].
      intros key ->%list_elem_of_singleton. auto.
    + exists ["raw_caption"; "final_caption"]. rewrite <- app_assoc.
      split; [done|]. split.
      * intros key Hin. repeat (apply elem_of_cons in Hin as [-> | Hin]; [auto|]).
        by apply elem_of_nil in Hin.
      * intros Hnd. change ["raw_caption"; "final_caption"]
          with (["raw_caption"] ++ ["final_caption"]).
        rewrite app_assoc.
        replace (item.*1 ++ ["raw_caption"])
          with ((item ++ [("raw_caption", JStr "")]).*1) by (by rewrite fmap_app).
        apply NoDup_snoc_key.
        -- rewrite dict_get_snoc, Hfinal. done.
        -- rewrite fmap_app. by apply NoDup_snoc_key.
  - intros direction caption_text idx w.
    destruct (decide (DATA w = [])) as [Hnil | Hne].
    + rewrite (nav_on_empty _ _ _ _ Hnil). cbn. rewrite Hnil. constructor.
    + destruct (nav_world direction caption_text idx w Hne) as (rec & Hrec & ->).
      cbn [after_save DATA]. apply Forall2_same_length_lookup.
      split; [by rewrite length_insert|].
      intros i before after Hbefore Hafter.
      destruct (decide (i = Z.to_nat (clamp_index idx (len (DATA w))))) as [-> | Hi].
      * rewrite list_lookup_insert_eq in Hafter by (by eapply lookup_lt_Some).
        injection Hafter as <-. rewrite Hrec in Hbefore. injection Hbefore as <-.
        rewrite dict_set_keys.
        destruct (dict_get rec "final_caption") eqn:Hfinal.
        -- split; [by left | done].
        -- split; [by right | by apply NoDup_snoc_key].
      * rewrite list_lookup_insert_ne in Hafter by done.
        assert (after = before) as -> by congruence. split; [by left | done].
Qed.
End Tool.

(** ** The further properties on the sample installation *)

Section MoreSamples.
#[local] Existing Instances sample_framework sample_host.

Lemma generate_receives_aligned_tensors_witness :
  (@caption sample_framework sample_engine sample_upload None []).1 !! 7%nat
  = Some (CallGenerate sample_kwargs)
  ∧ t_device (Tensor "cuda" float16 [1; 1] [7]) = model_device model
  ∧ (is_floating_point (Tensor "cuda" float16 [1; 1] [7]) = true →
     t_dtype (Tensor "cuda" float16 [1; 1] [7]) = model_dtype model).
Proof.
  split; [vm_compute; reflexivity|].
  apply (@generate_receives_aligned_tensors sample_framework sample_engine
           sample_upload None
           (@caption sample_framework sample_engine sample_upload None []).1
           (@caption sample_framework sample_engine sample_upload None []).2
           7%nat sample_kwargs "pixel_values").
  - vm_compute. reflexivity.
  - vm_compute. reflexivity.
  - apply list_elem_of_further, list_elem_of_here.
Defined.

Lemma caption_missing_tensor_key_witness :
  delete "input_ids" sample_bundle !! "input_ids" = None
  ∧ ∃ log,
      @caption sample_framework sample_engine_no_ids sample_upload None []
      = (log, Raise (Uncaught (PyExn "KeyError" "input_ids"))).
Proof.
  split; [vm_compute; reflexivity|].
  destruct (@caption_missing_tensor_key sample_framework sample_engine_no_ids
              sample_upload None sample_upload sample_upload sample_upload
              (delete "input_ids" sample_bundle))
    as (log & Hrun & _).
  - reflexivity.
  - reflexivity.
  - reflexivity.
  - reflexivity.
  - left. vm_compute. reflexivity.
  - exists log. exact Hrun.
Defined.

Lemma caption_succeeds_witness :
  @caption sample_framework sample_engine sample_upload None []
  = ([CallRead sample_upload; CallImageOpen sample_upload;
      CallConvert sample_upload "RGB"; CallProcessor "<CAPTION>" sample_upload "pt"]
     ++ (@visit sample_framework <$> map_to_list sample_bundle)
     ++ [CallGenerate
           (generate_kwargs
              (@align sample_framework (sample_tensor int64 [1; 3] [0; 5; 2]))
              (@align sample_framework (sample_tensor float32 [1; 1] [7])));
         CallBatchDecode (sample_tensor int64 [1; 2] [4; 2]) false;
         CallPostProcess "</s>a cat</s>" "<CAPTION>" (2, 1)],
     Ok (Response "microsoft/Florence-2-base" "<CAPTION>" "<CAPTION></s>a cat</s>")).
Proof.
  apply (@caption_succeeds sample_framework sample_engine sample_upload None
           sample_upload sample_upload sample_upload sample_bundle
           (sample_tensor int64 [1; 3] [0; 5; 2]) (sample_tensor float32 [1; 1] [7])
           (sample_tensor int64 [1; 2] [4; 2]) "</s>a cat</s>" []
           "<CAPTION></s>a cat</s>").
  - reflexivity.
  - reflexivity.
  - reflexivity.
  - reflexivity.
  - vm_compute. reflexivity.
  - vm_compute. reflexivity.
  - reflexivity.
  - reflexivity.
  - reflexivity.
Defined.

Lemma caption_server_error_cases_witness :
  (@caption sample_framework sample_engine sample_cancelled_upload None []).2
  = Raise (Uncaught (PyExn "CancelledError" ""))
  ∧ @file_read sample_framework sample_cancelled_upload
    = Raise (NotException (PyExn "CancelledError" "")).
Proof.
  split; [reflexivity|].
  destruct (@caption_server_error_cases sample_framework sample_engine
              sample_cancelled_upload None (PyExn "CancelledError" ""))
    as [Hread | (payload & opened & img & Hread & _)].
  - reflexivity.
  - exact Hread.
  - discriminate Hread.
Defined.

Lemma processor_and_parser_agree_witness :
  (@caption sample_framework sample_engine sample_upload (Some "<OD>") []).1 !! 3%nat
  = Some (CallProcessor "<OD>" sample_upload "pt")
  ∧ (@caption sample_framework sample_engine sample_upload (Some "<OD>") []).1 !! 9%nat
    = Some (CallPostProcess "</s>a cat</s>" "<OD>" (2, 1))
  ∧ (3 < 9)%nat.
Proof.
  split; [vm_compute; reflexivity|]. split; [vm_compute; reflexivity|].
  destruct (@processor_and_parser_agree sample_framework sample_engine
              sample_upload (Some "<OD>")
              (@caption sample_framework sample_engine sample_upload (Some "<OD>") []).1
              (@caption sample_framework sample_engine sample_upload (Some "<OD>") []).2
              3%nat 9%nat "<OD>" "pt" "</s>a cat</s>" "<OD>" sample_upload (2, 1))
    as (_ & _ & _ & _ & Hlt).
  - vm_compute. reflexivity.
  - vm_compute. reflexivity.
  - vm_compute. reflexivity.
  - exact Hlt.
Defined.

Lemma load_captions_fills_caption_keys_witness :
  load_captions sample_disk "/data/captions.json" = Ok (DATA sample_world)
  ∧ length (DATA sample_world) = length sample_records.
Proof.
  split; [reflexivity|].
  apply (load_captions_fills_caption_keys sample_disk "/data/captions.json"
           sample_records (DATA sample_world)).
  - reflexivity.
  - reflexivity.
Defined.

Lemma load_captions_needs_objects_witness :
  sample_disk !! "/data/captions.json" = Some (JsonText (JArr sample_records))
  ∧ ∀ other, sample_disk !! other = None →
      ∃ e, load_captions sample_disk other = Raise e
           ∧ exn_class e = "FileNotFoundError".
Proof.
  split; [reflexivity|].
  apply (load_captions_needs_objects sample_disk "/data/captions.json" sample_records).
  reflexivity.
Defined.


Lemma restart_after_nav_witness :
  DATA sample_world ≠ []
  ∧ JSON_PATH sample_world ≠ CSV_PATH sample_world
  ∧ main "/data/captions.json" "/data/captions.csv"
      (files (nav "next" "a dog" 0 sample_world).1)
    = Ok (World (DATA (nav "next" "a dog" 0 sample_world).1)
            "/data/captions.json" "/data/captions.csv" "/data"
            (files (nav "next" "a dog" 0 sample_world).1)).
Proof.
  split; [discriminate|]. split; [discriminate|].
  destruct (restart_after_nav "next" "a dog" 0 sample_world) as (_ & Hrestart & _).
  - discriminate.
  - discriminate.
  - repeat constructor.
  - apply Hrestart. vm_compute. reflexivity.
Defined.

Lemma same_path_loses_json_witness :
  JSON_PATH sample_world_one_path = CSV_PATH sample_world_one_path
  ∧ ∃ e,
      main "/data/captions.json" "/data/captions.json"
        (files (nav "next" "a dog" 0 sample_world_one_path).1) = Raise e
      ∧ exn_class e = "JSONDecodeError".
Proof.
  split; [reflexivity|].
  destruct (same_path_loses_json "next" "a dog" 0 sample_world_one_path)
    as (_ & _ & Hlost).
  - discriminate.
  - reflexivity.
  - exact Hlost.
Defined.

Lemma nav_shows_target_record_witness :
  (nav "next" " a dog" 1 sample_world).2
  = Ok (View (JStr "/data/b.png") (JStr " a dog") "**2 / 2**" "Saved 12:00:00" 1
          true true true true true)
  ∧ 0 ≤ nav_target "next" (clamp_index 1 (len (DATA sample_world)))
          (len (DATA sample_world))
      ≤ len (DATA sample_world) - 1.
Proof.
  split; [vm_compute; reflexivity|].
  apply (nav_shows_target_record "next" " a dog" 1 sample_world
           (View (JStr "/data/b.png") (JStr " a dog") "**2 / 2**" "Saved 12:00:00" 1
              true true true true true)).
  - discriminate.
  - vm_compute. reflexivity.
Defined.


Lemma prev_and_next_are_inverse_witness :
  DATA sample_world ≠ []
  ∧ (0 < len (DATA sample_world) - 1 →
     ∀ w1 v1 v2,
       nav "next" "a dog" 0 sample_world = (w1, Ok v1) →
       (nav "prev" "a cat" (v_idx v1) w1).2 = Ok v2 →
       v_idx v1 = 0 + 1 ∧ v_idx v2 = 0).
Proof.
  split; [discriminate|].
  apply (prev_and_next_are_inverse "a dog" "a cat" 0 sample_world).
  - discriminate.
  - vm_compute. split; discriminate.
Defined.

Lemma first_view_after_main_witness :
  main "/data/captions.json" "/data/captions.csv" sample_disk = Ok sample_world
  ∧ v_idx (View (JStr "/data/a.png") (JStr "a cat") "**1 / 2**" "" 0
             true true true true true) = 0.
Proof.
  split; [reflexivity|].
  apply (first_view_after_main "/data/captions.json" "/data/captions.csv" sample_disk
           [("image", JStr "a.png"); ("raw_caption", JStr "a cat")]
           [JObj [("image", JStr "b.png")]] sample_world
           (View (JStr "/data/a.png") (JStr "a cat") "**1 / 2**" "" 0
              true true true true true)).
  - reflexivity.
  - reflexivity.
  - vm_compute. reflexivity.
Defined.

Lemma session_leaves_disk_in_step_witness :
  (session [(NextBtn, "a dog"); (EndBtn, "a bird")] sample_world).2 = Ok 1
  ∧ files (session [(NextBtn, "a dog"); (EndBtn, "a bird")] sample_world).1
      !! CSV_PATH sample_world
    = Some (CsvText
              ([JStr "image"; JStr "raw_caption"; JStr "final_caption"]
               :: map csv_cells
                    (DATA (session [(NextBtn, "a dog"); (EndBtn, "a bird")]
                             sample_world).1))).
Proof.
  split; [vm_compute; reflexivity|].
  apply (session_leaves_disk_in_step [(NextBtn, "a dog"); (EndBtn, "a bird")]
           sample_world 1).
  - discriminate.
  - discriminate.
  - vm_compute. reflexivity.
Defined.
End MoreSamples.
